(** * STRYKER: the in-page analysis engines of [src/app/page.tsx]

    A shallow embedding of the three classes the page defines:
    [NLPEngine] (tokenizer, stemmer, lexicon sentiment, entity and
    key-phrase extraction, hash embedding), [SignalGenerator] (ensemble
    score and BUY/HOLD/SELL classification) and [BacktestEngine] (the
    simulated performance summary).

    JavaScript numbers are kept abstract behind the interface [Number];
    the programs are written once and run at two instances:
      - [Q], exact rational arithmetic, used for the algebraic laws;
      - [float], IEEE 754 binary64 (what the engine really computes
        with), used to evaluate the code bit for bit on concrete inputs.
    Strings are sequences of 8-bit code units (Latin-1 text). *)

From Stdlib Require Import List Bool Arith ZArith QArith Qround Qabs Lia Lqa.
From Stdlib Require Import Ascii String.
From Stdlib Require Import Floats.
From Stdlib Require Import Permutation Sorted DecimalString.
Import ListNotations.

Set Implicit Arguments.

(* ================================================================= *)
(** ** JavaScript numbers *)

(** The operations on numbers the engines use.  [truthy] is ToBoolean,
    as used by [x || 1]. *)
Class Number (N : Type) : Type := {
  of_Z : Z -> N;
  nadd : N -> N -> N;
  nsub : N -> N -> N;
  nmul : N -> N -> N;
  ndiv : N -> N -> N;
  Math_abs : N -> N;
  Math_round : N -> N;
  Math_floor : N -> N;
  Math_min : N -> N -> N;
  Math_max : N -> N -> N;
  ngeb : N -> N -> bool;
  ngtb : N -> N -> bool;
  nltb : N -> N -> bool;
  truthy : N -> bool
}.

Declare Scope num_scope.
Delimit Scope num_scope with num.
Notation "a + b" := (nadd a b) : num_scope.
Notation "a - b" := (nsub a b) : num_scope.
Notation "a * b" := (nmul a b) : num_scope.
Notation "a / b" := (ndiv a b) : num_scope.
Notation "a >=? b" := (ngeb a b) (at level 70) : num_scope.
Notation "a >? b" := (ngtb a b) (at level 70) : num_scope.
Notation "a <? b" := (nltb a b) (at level 70) : num_scope.

Section NumberOps.
Context {N : Type} `{Number N}.

(** An integer literal, and a decimal literal [m / 10^k]: on binary64
    the quotient of two exactly represented integers is the correctly
    rounded value of the decimal, which is how a literal is read. *)
Definition int (z : Z) : N := of_Z z.
Definition dec (m : Z) (k : nat) : N :=
  match k with
  | O => of_Z m
  | _ => (of_Z m / of_Z (10 ^ Z.of_nat k))%num
  end.
Definition of_nat (n : nat) : N := of_Z (Z.of_nat n).

(** [a || b] on numbers. *)
Definition orElse (a b : N) : N := if truthy a then a else b.

(** NaN, written as the quotient 0/0 that yields it.  The exact
    rationals have no such value: over them the quotient is 0, and what
    is proved over them leaves out the inputs where NaN arises. *)
Definition NaN : N := (of_Z 0 / of_Z 0)%num.
End NumberOps.

(** *** Exact rationals *)

Definition Qround_half_up (q : Q) : Q := inject_Z (Qfloor (q + (1 # 2))).

#[export] Instance Number_Q : Number Q := {|
  of_Z := inject_Z;
  nadd := Qplus;
  nsub := Qminus;
  nmul := Qmult;
  ndiv := Qdiv;
  Math_abs := Qabs;
  Math_round := Qround_half_up;
  Math_floor := fun q => inject_Z (Qfloor q);
  Math_min := fun a b => if Qle_bool a b then a else b;
  Math_max := fun a b => if Qle_bool a b then b else a;
  ngeb := fun a b => Qle_bool b a;
  ngtb := fun a b => negb (Qle_bool a b);
  nltb := fun a b => negb (Qle_bool b a);
  truthy := fun q => negb (Qeq_bool q 0)
|}.

(** *** IEEE 754 binary64 *)

Module F64.
Definition of_Z (z : Z) : float :=
  SF2Prim (binary_normalize prec emax z 0 false).

(** The integer [floor (x + shift_half/2)] of a finite, non-integral
    [x = (-1)^s * m * 2^e] with [e < 0], computed exactly. *)
Definition floor_plus (half : bool) (s : bool) (m : positive) (e : Z) : Z :=
  let d := (2 ^ (- e))%Z in
  let v := if s then Z.neg m else Z.pos m in
  if half then ((2 * v + d) / (2 * d))%Z else (v / d)%Z.

Definition to_integer (half : bool) (x : float) : float :=
  match Prim2SF x with
  | S754_finite s m e =>
      if (0 <=? e)%Z then x
      else
        let n := floor_plus half s m e in
        if (n =? 0)%Z then (if s then neg_zero else zero) else of_Z n
  | _ => x
  end.

(** [Math.round]: nearest integer, ties towards +infinity. *)
Definition round (x : float) : float := to_integer true x.
Definition floor (x : float) : float := to_integer false x.

Definition min (a b : float) : float :=
  if is_nan a then a else if is_nan b then b
  else if PrimFloat.ltb a b then a else if PrimFloat.ltb b a then b
  else if get_sign a then a else b.
Definition max (a b : float) : float :=
  if is_nan a then a else if is_nan b then b
  else if PrimFloat.ltb a b then b else if PrimFloat.ltb b a then a
  else if get_sign a then b else a.

Definition truthy (x : float) : bool := negb (is_zero x || is_nan x).
End F64.

#[export] Instance Number_float : Number float := {|
  of_Z := F64.of_Z;
  nadd := PrimFloat.add;
  nsub := PrimFloat.sub;
  nmul := PrimFloat.mul;
  ndiv := PrimFloat.div;
  Math_abs := PrimFloat.abs;
  Math_round := F64.round;
  Math_floor := F64.floor;
  Math_min := F64.min;
  Math_max := F64.max;
  ngeb := fun a b => PrimFloat.leb b a;
  ngtb := fun a b => PrimFloat.ltb b a;
  nltb := fun a b => PrimFloat.ltb a b;
  truthy := F64.truthy
|}.

(* ================================================================= *)
(** ** Strings and regular expressions *)

Module Js.
Local Open Scope nat_scope.

Definition code (c : ascii) : nat := nat_of_ascii c.
Definition between (lo hi : nat) (c : ascii) : bool :=
  (lo <=? code c) && (code c <=? hi).

(** [\d], [\w] and [\s] (the white space and line terminators below
    code 256: TAB, LF, VT, FF, CR, SP, NBSP). *)
Definition is_digit (c : ascii) : bool := between 48 57 c.
Definition is_word (c : ascii) : bool :=
  between 97 122 c || between 65 90 c || is_digit c || (code c =? 95).
Definition is_space (c : ascii) : bool :=
  between 9 13 c || (code c =? 32) || (code c =? 160).

Definition lower (c : ascii) : ascii :=
  if between 65 90 c || (between 192 222 c && negb (code c =? 215))
  then ascii_of_nat (code c + 32) else c.
Definition upper (c : ascii) : ascii :=
  if between 97 122 c || (between 224 254 c && negb (code c =? 247))
  then ascii_of_nat (code c - 32) else c.

Fixpoint map_chars (f : ascii -> ascii) (s : string) : string :=
  match s with
  | EmptyString => EmptyString
  | String c s' => String (f c) (map_chars f s')
  end.

Definition toLowerCase (s : string) : string := map_chars lower s.

Fixpoint rev_onto (s acc : string) : string :=
  match s with
  | EmptyString => acc
  | String c s' => rev_onto s' (String c acc)
  end.
Definition reverse (s : string) : string := rev_onto s EmptyString.

Fixpoint trimStart (s : string) : string :=
  match s with
  | String c s' => if is_space c then trimStart s' else s
  | EmptyString => EmptyString
  end.
Definition trim (s : string) : string :=
  reverse (trimStart (reverse (trimStart s))).

(** [s.endsWith(suffix)] and [s.slice(0, -n)]. *)
Definition endsWith (s suffix : string) : bool :=
  prefix (reverse suffix) (reverse s).
Definition slice_to_neg (s : string) (n : nat) : string :=
  substring 0 (String.length s - n) s.

(** *** Backtracking regular expressions

    The fragment of the pattern language the page uses.  Quantifiers
    are greedy and an iteration of [Star] has to consume input. *)
Inductive regex : Type :=
| Eps : regex
| Char : ascii -> regex
| Class : (ascii -> bool) -> regex
| Seq : regex -> regex -> regex
| Alt : regex -> regex -> regex
| Star : regex -> regex.

Definition Plus (r : regex) : regex := Seq r (Star r).
Definition Opt (r : regex) : regex := Alt r Eps.

(** [r{m}] and [r{m,m+extra}]. *)
Fixpoint Times (m : nat) (r : regex) : regex :=
  match m with
  | O => Eps
  | S m' => Seq r (Times m' r)
  end.
Fixpoint UpTo (extra : nat) (r : regex) : regex :=
  match extra with
  | O => Eps
  | S e' => Opt (Seq r (UpTo e' r))
  end.
Definition Repeat (m n : nat) (r : regex) : regex :=
  Seq (Times m r) (UpTo (n - m) r).

Fixpoint Lit (s : string) : regex :=
  match s with
  | EmptyString => Eps
  | String c s' => Seq (Char c) (Lit s')
  end.

Fixpoint AltOf (rs : list regex) (last : regex) : regex :=
  match rs with
  | [] => last
  | r :: rs' => Alt r (AltOf rs' last)
  end.

(** A regular expression object: its pattern and its [i] flag (every
    pattern of the page carries [g]). *)
Record RegExp : Type := { pattern : regex; ignoreCase : bool }.

Definition canonicalize (ic : bool) (c : ascii) : ascii :=
  if ic then upper c else c.

Definition class_has (ic : bool) (p : ascii -> bool) (c : ascii) : bool :=
  p c || (ic && (p (upper c) || p (lower c))).

(** [rmatch ic r s k]: match [r] at the start of [s], hand the rest
    to the continuation [k]; [None] is failure and makes the caller
    backtrack. *)
Fixpoint rmatch (ic : bool) (r : regex) (s : string)
         (k : string -> option string) {struct r} : option string :=
  match r with
  | Eps => k s
  | Char a =>
      match s with
      | String c s' =>
          if Ascii.eqb (canonicalize ic a) (canonicalize ic c) then k s' else None
      | EmptyString => None
      end
  | Class p =>
      match s with
      | String c s' => if class_has ic p c then k s' else None
      | EmptyString => None
      end
  | Seq r1 r2 => rmatch ic r1 s (fun s' => rmatch ic r2 s' k)
  | Alt r1 r2 =>
      match rmatch ic r1 s k with
      | Some rest => Some rest
      | None => rmatch ic r2 s k
      end
  | Star r1 =>
      (fix iterate (fuel : nat) (s0 : string) {struct fuel} : option string :=
         match fuel with
         | O => k s0
         | S fuel' =>
             match rmatch ic r1 s0
                     (fun s' => if String.length s' <? String.length s0
                                then iterate fuel' s' else None) with
             | Some rest => Some rest
             | None => k s0
             end
         end) (String.length s) s
  end.

(** One match attempt at the start of [s]: the rest after the match. *)
Definition exec_at (re : RegExp) (s : string) : option string :=
  rmatch (ignoreCase re) (pattern re) s Some.

Definition matched (s rest : string) : string :=
  substring 0 (String.length s - String.length rest) s.

Definition tail (s : string) : string :=
  match s with
  | EmptyString => EmptyString
  | String _ s' => s'
  end.

(** [s.match(re) || []] for a global [re]: the matched substrings,
    left to right, without overlap. *)
Fixpoint match_from (fuel : nat) (re : RegExp) (s : string) : list string :=
  match fuel with
  | O => []
  | S fuel' =>
      match exec_at re s with
      | Some rest =>
          matched s rest ::
            (if String.length rest <? String.length s
             then match_from fuel' re rest
             else match s with
                  | EmptyString => []
                  | String _ s' => match_from fuel' re s'
                  end)
      | None =>
          match s with
          | EmptyString => []
          | String _ s' => match_from fuel' re s'
          end
      end
  end.
Definition match_all (re : RegExp) (s : string) : list string :=
  match_from (S (String.length s)) re s.

(** [s.replace(re, rep)] for a global [re] and a replacement text
    without [$]. *)
Fixpoint replace_from (fuel : nat) (re : RegExp) (rep s : string) : string :=
  match fuel with
  | O => s
  | S fuel' =>
      let keep_one :=
        match s with
        | EmptyString => EmptyString
        | String c s' => String c (replace_from fuel' re rep s')
        end in
      match exec_at re s with
      | Some rest =>
          if String.length rest <? String.length s
          then append rep (replace_from fuel' re rep rest)
          else append rep keep_one
      | None => keep_one
      end
  end.
Definition replace (re : RegExp) (rep s : string) : string :=
  replace_from (S (String.length s)) re rep s.

(** [s.split(re)]: [pending] is the text since the last separator,
    [s] the text still to scan; a separator match that is empty and
    starts where the last one ended is skipped. *)
Fixpoint split_from (fuel : nat) (re : RegExp) (pending s : string) : list string :=
  match fuel with
  | O => [append pending s]
  | S fuel' =>
      match s with
      | EmptyString => [pending]
      | String c s' =>
          match exec_at re s with
          | None => split_from fuel' re (append pending (String c EmptyString)) s'
          | Some rest =>
              if (String.length rest =? String.length s)
                 && (String.length pending =? 0)
              then split_from fuel' re (append pending (String c EmptyString)) s'
              else pending :: split_from fuel' re EmptyString rest
          end
      end
  end.
Definition split (re : RegExp) (s : string) : list string :=
  match s with
  | EmptyString =>
      match exec_at re s with Some _ => [] | None => [EmptyString] end
  | _ => split_from (S (2 * String.length s)) re EmptyString s
  end.
End Js.

(* ================================================================= *)
(** ** Containers *)

(** A [Set<string>] that is only asked [has]. *)
Definition Set_has (s : list string) (x : string) : bool :=
  existsb (String.eqb x) s.

(** A [Map<string, V>]: iteration follows insertion order, and [set] on a
    present key keeps its place. *)
Section MapOps.
Variable V : Type.

Fixpoint Map_get (m : list (string * V)) (key : string) : option V :=
  match m with
  | [] => None
  | (k, v) :: m' => if String.eqb k key then Some v else Map_get m' key
  end.

Fixpoint Map_set (m : list (string * V)) (key : string) (v : V) : list (string * V) :=
  match m with
  | [] => [(key, v)]
  | (k, w) :: m' =>
      if String.eqb k key then (k, v) :: m' else (k, w) :: Map_set m' key v
  end.
End MapOps.

(** [Array.prototype.sort] with a comparator: a stable sort; an element
    moves in front of the first one the comparator puts after it. *)
Section Sort.
Variable A : Type.
Variable compareFn : A -> A -> Z.

Fixpoint sort_insert (x : A) (sorted : list A) : list A :=
  match sorted with
  | [] => [x]
  | y :: rest =>
      if (0 <? compareFn y x)%Z then x :: sorted else y :: sort_insert x rest
  end.

Definition Array_sort (l : list A) : list A :=
  fold_left (fun sorted x => sort_insert x sorted) l [].
End Sort.

(** [arr.slice(0, n)]. *)
Definition slice0 {A : Type} (n : nat) (l : list A) : list A := firstn n l.

(* ================================================================= *)
(** ** Types of the page *)

Record Sentiment (N : Type) : Type := {
  positive : N;
  negative : N;
  neutral : N;
  confidence : N
}.

Record Entity : Type := {
  name : string;
  type : string;
  count : nat
}.

Record NLPResult (N : Type) : Type := {
  tokens : list string;
  embeddings : list N;
  sentiment : Sentiment N;
  entities : list Entity;
  keyPhrases : list string
}.

Inductive Decision : Type := BUY | HOLD | SELL.

Record Components (N : Type) : Type := {
  c_sentiment : N;
  c_fundamental : N;
  c_technical : N
}.

Record Signal (N : Type) : Type := {
  ticker : string;
  signal : Decision;
  s_confidence : N;
  components : Components N;
  reasoning : list string
}.

Record BacktestResult (N : Type) : Type := {
  sharpeRatio : N;
  maxDrawdown : N;
  winRate : N;
  alpha : N;
  trades : N;
  returns : N
}.

Record BacktestConfig (N : Type) : Type := {
  bufferDays : N;
  initialCapital : N
}.

(* ================================================================= *)
(** ** NLPEngine *)

Module NLPEngine.
Import Js.
Local Open Scope string_scope.
Local Open Scope nat_scope.

(** Loughran-McDonald financial sentiment dictionary (subset). *)
Definition positiveWords : list string :=
  [ "achieve"; "accomplishment"; "advantage"; "benefit"; "breakthrough"; "confident";
    "deliver"; "enhance"; "exceed"; "excellent"; "favorable"; "gain"; "growth";
    "improve"; "innovation"; "opportunity"; "outperform"; "positive"; "profit";
    "progress"; "recovery"; "strength"; "success"; "superior"; "upside"; "value" ].

Definition negativeWords : list string :=
  [ "adverse"; "challenge"; "concern"; "decline"; "default"; "deficit"; "delay";
    "deteriorate"; "difficult"; "disappoint"; "downgrade"; "failure"; "impair";
    "inability"; "lawsuit"; "liability"; "litigation"; "loss"; "negative";
    "problem"; "restructure"; "risk"; "shortfall"; "threat"; "uncertain"; "weak" ].

Definition uncertaintyWords : list string :=
  [ "anticipate"; "approximate"; "assume"; "believe"; "could"; "depend"; "estimate";
    "expect"; "forecast"; "hope"; "intend"; "likely"; "may"; "might"; "outlook";
    "plan"; "possible"; "potential"; "predict"; "probable"; "project"; "should" ].

(** [/[^\w\s]/g] and [/\s+/]. *)
Definition re_punctuation : RegExp :=
  {| pattern := Class (fun c => negb (is_word c || is_space c));
     ignoreCase := false |}.
Definition re_spaces : RegExp :=
  {| pattern := Plus (Class is_space); ignoreCase := false |}.

Definition tokenize (text : string) : list string :=
  filter (fun token => 2 <? String.length token)
    (split re_spaces (replace re_punctuation " " (toLowerCase text))).

(** Porter stemmer, simplified: the first suffix of the list that ends
    the word and leaves more than three letters is cut off. *)
Definition suffixes : list string :=
  [ "ing"; "ed"; "ly"; "ness"; "ment"; "tion"; "sion"; "ity" ].

Fixpoint stem_with (sfx : list string) (word : string) : string :=
  match sfx with
  | [] => word
  | suffix :: sfx' =>
      if endsWith word suffix && (String.length suffix + 3 <? String.length word)
      then slice_to_neg word (String.length suffix)
      else stem_with sfx' word
  end.
Definition stemWord (word : string) : string := stem_with suffixes word.

(** The three counters of [computeSentiment]. *)
Record Counts : Type := {
  n_positive : nat;
  n_negative : nat;
  n_uncertainty : nat
}.

Definition hits (words : list string) (token : string) : bool :=
  Set_has words token || Set_has words (stemWord token).

Definition count_token (c : Counts) (token : string) : Counts :=
  {| n_positive := if hits positiveWords token then S (n_positive c) else n_positive c;
     n_negative := if hits negativeWords token then S (n_negative c) else n_negative c;
     n_uncertainty :=
       if hits uncertaintyWords token then S (n_uncertainty c) else n_uncertainty c |}.

Definition count_tokens (tokens : list string) : Counts :=
  fold_left count_token tokens
    {| n_positive := 0; n_negative := 0; n_uncertainty := 0 |}.

(** [(hash << 5) - hash + charCode] on 32-bit integers. *)
Definition toInt32 (z : Z) : Z :=
  let m := (z mod 2 ^ 32)%Z in
  if (2 ^ 31 <=? m)%Z then (m - 2 ^ 32)%Z else m.

Fixpoint hash_from (hash : Z) (str : string) : Z :=
  match str with
  | EmptyString => hash
  | String c str' =>
      hash_from (toInt32 (toInt32 (hash * 2 ^ 5) - hash + Z.of_nat (code c))) str'
  end.
Definition hashCode (str : string) : Z := hash_from 0 str.

(** Bigrams of adjacent tokens, and their frequency table. *)
Fixpoint bigrams (tokens : list string) : list string :=
  match tokens with
  | a :: (b :: _) as rest => (a ++ " " ++ b) :: bigrams rest
  | _ => []
  end.

Definition bump (freq : list (string * nat)) (bigram : string) : list (string * nat) :=
  Map_set freq bigram
    (match Map_get freq bigram with Some n => n | None => 0 end + 1).

Definition extractKeyPhrases (tokens : list string) : list string :=
  let ngramFreq := fold_left bump (bigrams tokens) [] in
  map fst
    (slice0 8
       (Array_sort (fun a b => (Z.of_nat (snd b) - Z.of_nat (snd a))%Z)
          (filter (fun e => (1 <? snd e) && (6 <? String.length (fst e))) ngramFreq))).

(** Named entity recognition by pattern. *)
Definition d : regex := Class is_digit.
Definition sp : regex := Star (Class is_space).

Definition re_money : RegExp :=
  {| pattern :=
       Seq (Char "$")
         (Seq (Plus (Class (fun c => is_digit c || Ascii.eqb c ",")))
            (Seq (Opt (Seq (Char ".") (Plus d)))
               (Opt (Seq sp (AltOf [Lit "million"; Lit "billion"; Lit "M"] (Lit "B"))))));
     ignoreCase := true |}.
Definition re_fiscal : RegExp :=
  {| pattern :=
       Seq (Alt (Seq (Char "Q") (Class (between 49 52))) (Lit "FY"))
         (Seq sp (Times 4 d));
     ignoreCase := true |}.
Definition re_date : RegExp :=
  {| pattern :=
       Seq (Repeat 1 2 d)
         (Seq (Alt (Char "/") (Char "-"))
            (Seq (Repeat 1 2 d)
               (Seq (Alt (Char "/") (Char "-")) (Repeat 2 4 d))));
     ignoreCase := false |}.
Definition re_percentage : RegExp :=
  {| pattern := Seq (Seq (Plus d) (Opt (Seq (Char ".") (Plus d)))) (Seq sp (Char "%"));
     ignoreCase := false |}.
Definition re_role : RegExp :=
  {| pattern :=
       AltOf [Lit "CEO"; Lit "CFO"; Lit "CTO"; Lit "COO"; Lit "President"; Lit "Chairman"]
         (Lit "Director");
     ignoreCase := true |}.

Definition patterns : list (RegExp * string) :=
  [ (re_money, "MONEY"); (re_fiscal, "FISCAL_PERIOD"); (re_date, "DATE");
    (re_percentage, "PERCENTAGE"); (re_role, "ROLE") ].

Definition record_match (ty : string) (ents : list (string * (string * nat)))
           (m : string) : list (string * (string * nat)) :=
  let normalized := trim m in
  match Map_get ents normalized with
  | Some (ty0, n) => Map_set ents normalized (ty0, S n)
  | None => Map_set ents normalized (ty, 1)
  end.

Definition extractEntities (text : string) : list Entity :=
  let ents :=
    fold_left
      (fun ents p => fold_left (record_match (snd p)) (match_all (fst p) text) ents)
      patterns [] in
  slice0 10
    (Array_sort (fun a b => (Z.of_nat (count b) - Z.of_nat (count a))%Z)
       (map (fun e => {| name := fst e; type := fst (snd e); count := snd (snd e) |})
          ents)).

Section WithNumbers.
Context {N : Type} `{Number N}.
Local Open Scope num_scope.

Definition computeSentiment (tokens : list string) : Sentiment N :=
  let c := count_tokens tokens in
  let total := orElse (of_nat (List.length tokens)) (int 1) in
  let positiveScore := of_nat (n_positive c) / total * int 100 in
  let negativeScore := of_nat (n_negative c) / total * int 100 in
  let neutralScore := int 100 - positiveScore - negativeScore in
  let confidence :=
    Math_abs (positiveScore - negativeScore)
    + (int 100 - of_nat (n_uncertainty c) * int 10) in
  {| positive := Math_round (positiveScore * int 100) / int 100;
     negative := Math_round (negativeScore * int 100) / int 100;
     neutral := Math_round (neutralScore * int 100) / int 100;
     confidence := Math_min (int 100) (Math_max (int 0) (Math_round confidence)) |}.

(** [Math.sin] and [Math.sqrt] are supplied by the host. *)
Variable Math_sin : N -> N.
Variable Math_sqrt : N -> N.

(** The accumulation loop: every token adds its 128 sines, each
    divided by [tokens.length || 1]. *)
Definition divisor (tokens : list string) : N :=
  orElse (of_nat (List.length tokens)) (int 1).

Fixpoint add_token_from (i : nat) (hash : Z) (tokens : list string)
         (embedding : list N) : list N :=
  match embedding with
  | [] => []
  | v :: rest =>
      (v + Math_sin (int hash * of_nat (i + 1) * dec 1 1) / divisor tokens)
        :: add_token_from (S i) hash tokens rest
  end.

Definition accumulate (tokens : list string) : list N :=
  fold_left (fun embedding token => add_token_from 0 (hashCode token) tokens embedding)
    tokens (repeat (int 0) 128).

(** [Math.sqrt(sum of squares) || 1]. *)
Definition magnitude (embedding : list N) : N :=
  orElse (Math_sqrt (fold_left (fun sum v => sum + v * v) embedding (int 0))) (int 1).

Definition generateEmbedding (tokens : list string) : list N :=
  let embedding := accumulate tokens in
  map (fun v => Math_round (v / magnitude embedding * int 1000) / int 1000) embedding.

Definition analyze (text : string) : NLPResult N :=
  let tokens := tokenize text in
  {| tokens := slice0 50 tokens;
     embeddings := generateEmbedding tokens;
     sentiment := computeSentiment tokens;
     entities := extractEntities text;
     keyPhrases := extractKeyPhrases tokens |}.
End WithNumbers.
End NLPEngine.

(* ================================================================= *)
(** ** Math.random *)

(** The generator is a source of draws and a cursor; a computation that
    may call [Math.random] threads it. *)
Record Rng (N : Type) : Type := {
  draws : nat -> N;
  cursor : nat
}.

Definition Rand (N A : Type) : Type := Rng N -> A * Rng N.

Definition ret {N A : Type} (a : A) : Rand N A := fun g => (a, g).
Definition bind {N A B : Type} (c : Rand N A) (k : A -> Rand N B) : Rand N B :=
  fun g => let (a, g') := c g in k a g'.
Definition Math_random {N : Type} : Rand N N :=
  fun g => (draws g (cursor g), {| draws := draws g; cursor := S (cursor g) |}).
Definition run {N A : Type} (c : Rand N A) (g : Rng N) : A := fst (c g).

Notation "x <- c ;; k" := (bind c (fun x => k))
  (at level 61, c at next level, right associativity).

(* ================================================================= *)
(** ** SignalGenerator *)

Module SignalGenerator.
Local Open Scope string_scope.

(** The names every plain object inherits from [Object.prototype]: the
    properties of the standard and those of its Annex B. *)
Definition Object_prototype : list string :=
  [ "constructor"; "hasOwnProperty"; "isPrototypeOf"; "propertyIsEnumerable";
    "toLocaleString"; "toString"; "valueOf"; "__proto__";
    "__defineGetter__"; "__defineSetter__"; "__lookupGetter__"; "__lookupSetter__" ].

(** What a score table gives under a name: a number, or an inherited
    member, which is a function ([__proto__]: an object). *)
Inductive Score (N : Type) : Type :=
| Num (x : N)
| Member (name : string).
Arguments Num {N} x.
Arguments Member {N} name.

Section WithNumbers.
Context {N : Type} `{Number N}.
Local Open Scope num_scope.

Definition w_sentiment : N := dec 35 2.
Definition w_fundamental : N := dec 35 2.
Definition w_technical : N := dec 30 2.

(** The score tables: plain objects, with the ten tickers as their own
    properties. *)
Definition fundamentals : list (string * N) :=
  [ ("AAPL", dec 82 2); ("MSFT", dec 78 2); ("GOOGL", dec 75 2); ("NVDA", dec 88 2);
    ("AMZN", dec 65 2); ("META", dec 58 2); ("TSLA", dec 45 2); ("JPM", dec 72 2);
    ("V", dec 80 2); ("JNJ", dec 70 2) ].
Definition technicals : list (string * N) :=
  [ ("AAPL", dec 75 2); ("MSFT", dec 82 2); ("GOOGL", dec 68 2); ("NVDA", dec 91 2);
    ("AMZN", dec 55 2); ("META", dec 48 2); ("TSLA", dec 35 2); ("JPM", dec 65 2);
    ("V", dec 78 2); ("JNJ", dec 72 2) ].

(** [table[ticker]]: the number the table holds under that name, or
    the member a plain object inherits under it, or [None] for
    [undefined]. *)
Definition property (table : list (string * N)) (ticker : string) : option (Score N) :=
  match Map_get table ticker with
  | Some v => Some (Num v)
  | None => if Set_has Object_prototype ticker then Some (Member ticker) else None
  end.

(** [fundamentals[ticker] ?? 0.5 + Math.random() * 0.4]: only
    [undefined] falls through to the random score. *)
Definition computeFundamentalScore (ticker : string) : Rand N (Score N) :=
  match property fundamentals ticker with
  | Some v => ret v
  | None => r <- Math_random ;; ret (Num (dec 5 1 + r * dec 4 1))
  end.

Definition computeTechnicalScore (ticker : string) : Rand N (Score N) :=
  match property technicals ticker with
  | Some v => ret v
  | None => r <- Math_random ;; ret (Num (dec 4 1 + r * dec 5 1))
  end.

(** A score where a number is asked for, in a product or a comparison:
    a function or an object is converted through its text, which is no
    numeral, and gives NaN. *)
Definition ToNumber (v : Score N) : N :=
  match v with
  | Num x => x
  | Member _ => NaN
  end.

Definition sentimentScore (nlpResult : NLPResult N) : N :=
  (positive (sentiment nlpResult) - negative (sentiment nlpResult) + int 50) / int 100.

(** Ensemble aggregation. *)
Definition compositeScore (sentimentScore fundamentalScore technicalScore : N) : N :=
  w_sentiment * sentimentScore
  + w_fundamental * fundamentalScore
  + w_technical * technicalScore.

(** Signal classification, with the reasons pushed on the way. *)
Definition classify (compositeScore fundamentalScore technicalScore : N)
  : Decision * list string :=
  if compositeScore >=? dec 65 2 then
    (BUY,
     ["Strong positive sentiment detected in filings"]
       ++ (if fundamentalScore >? dec 7 1 then ["Solid fundamental metrics"] else [])
       ++ (if technicalScore >? dec 7 1 then ["Favorable technical setup"] else []))%list
  else if compositeScore >=? dec 40 2 then
    (HOLD,
     ["Mixed signals from sentiment analysis"; "Await clearer directional catalyst"])
  else
    (SELL,
     ["Elevated negative sentiment in disclosures"]
       ++ (if fundamentalScore <? dec 4 1 then ["Deteriorating fundamentals"] else [])
       ++ (if technicalScore <? dec 4 1 then ["Weak technical indicators"] else []))%list.

(** The signal once the three component scores are known. *)
Definition assemble (ticker : string) (s f t : N) : Signal N :=
  let c := compositeScore s f t in
  {| ticker := ticker;
     signal := fst (classify c f t);
     s_confidence := Math_round (Math_abs (c - dec 5 1) * int 200);
     components :=
       {| c_sentiment := Math_round (s * int 100);
          c_fundamental := Math_round (f * int 100);
          c_technical := Math_round (t * int 100) |};
     reasoning := snd (classify c f t) |}.

(** The composite score [generateSignal] classifies, with the same
    draws. *)
Definition compositeOf (ticker : string) (nlpResult : NLPResult N) : Rand N N :=
  let s := sentimentScore nlpResult in
  f <- computeFundamentalScore ticker ;;
  t <- computeTechnicalScore ticker ;;
  ret (compositeScore s (ToNumber f) (ToNumber t)).

Definition generateSignal (ticker : string) (nlpResult : NLPResult N)
  : Rand N (Signal N) :=
  let s := sentimentScore nlpResult in
  f <- computeFundamentalScore ticker ;;
  t <- computeTechnicalScore ticker ;;
  ret (assemble ticker s (ToNumber f) (ToNumber t)).
End WithNumbers.
End SignalGenerator.

(* ================================================================= *)
(** ** BacktestEngine *)

Module BacktestEngine.
Section WithNumbers.
Context {N : Type} `{Number N}.
Local Open Scope num_scope.

Definition is_buy (s : Signal N) : bool :=
  match signal s with BUY => true | _ => false end.

Definition avgConfidence (signals : list (Signal N)) : N :=
  fold_left (fun sum s => sum + s_confidence s) signals (int 0)
  / orElse (of_nat (List.length signals)) (int 1).

Definition signalQuality (signals : list (Signal N)) : N :=
  of_nat (List.length (filter is_buy signals))
  / orElse (of_nat (List.length signals)) (int 1).

Definition baseReturn (signals : list (Signal N)) : N :=
  dec 15 2 + avgConfidence signals / int 100 * dec 1 1.

Definition volatility (signals : list (Signal N)) : N :=
  dec 18 2 - signalQuality signals * dec 5 2.

(** Simulated backtest results based on signal quality.  The
    configuration is taken and not read. *)
Definition backtest (signals : list (Signal N)) (config : BacktestConfig N)
  : Rand N (BacktestResult N) :=
  r <- Math_random ;;
  ret {| sharpeRatio :=
           Math_round (baseReturn signals / volatility signals * int 100) / int 100;
         maxDrawdown := Math_round ((int (-8) - r * int 10) * int 100) / int 100;
         winRate := Math_round ((int 55 + avgConfidence signals * dec 2 1) * int 10) / int 10;
         alpha := Math_round ((baseReturn signals - dec 8 2) * int 100 * int 10) / int 10;
         trades := Math_floor (of_nat (List.length signals) * dec 25 1);
         returns := Math_round (baseReturn signals * int 100 * int 10) / int 10 |}.
End WithNumbers.
End BacktestEngine.

(* ================================================================= *)
(** ** Sample inputs *)

Module Samples.
Local Open Scope string_scope.

(** [s.repeat(n)]. *)
Fixpoint String_repeat (s : string) (n : nat) : string :=
  match n with
  | O => EmptyString
  | S n' => s ++ String_repeat s n'
  end.

(** Fifty filler words, then two occurrences of one bigram. *)
Definition long_text : string :=
  String_repeat "table " 50 ++ "growth risk growth risk".

(** A text of positive words only. *)
Definition all_growth : string := "growth growth growth".

(** A generator that always draws [v]. *)
Definition constant_rng {N : Type} (v : N) : Rng N :=
  {| draws := fun _ => v; cursor := 0 |}.

(** A result with given sentiment scores. *)
Definition with_scores {N : Type} `{Number N} (p n : N) : NLPResult N :=
  {| tokens := [];
     embeddings := [];
     sentiment := {| positive := p; negative := n; neutral := int 100 - p - n;
                     confidence := int 100 |}%num;
     entities := [];
     keyPhrases := [] |}.
End Samples.

(* ================================================================= *)
(** ** The page's own run *)

Module Page.
Local Open Scope string_scope.

(** A sample filing: the two fields the engines read. *)
Record Filing : Type := {
  f_ticker : string;
  f_text : string
}.

Definition sampleFilings : list Filing :=
  [ {| f_ticker := "AAPL";
       f_text := "We achieved record revenue growth this quarter, driven by strong iPhone demand and services expansion. Our innovation strategy continues to deliver exceptional results with breakthrough products. Management remains confident in our ability to outperform market expectations. However, supply chain challenges and regulatory uncertainty in certain markets present ongoing risk factors that could impact future performance." |};
    {| f_ticker := "MSFT";
       f_text := "Azure cloud revenue exceeded expectations with 32% year-over-year growth. Our AI investments are showing strong returns with Copilot adoption accelerating. We anticipate continued positive momentum but acknowledge competitive pressures and potential regulatory challenges in the enterprise software market." |};
    {| f_ticker := "NVDA";
       f_text := "Data center revenue surged 200% year-over-year as AI demand continues to accelerate. Our H100 and upcoming B100 chips are experiencing unprecedented demand. We are confident this growth trajectory will continue through 2025. Supply constraints remain our primary challenge." |};
    {| f_ticker := "AMZN";
       f_text := "AWS maintained strong market position despite increased competition. E-commerce margins showed improvement but remain under pressure. Significant investments in logistics and AI may impact near-term profitability. Management expects these investments to drive long-term value creation." |};
    {| f_ticker := "TSLA";
       f_text := "Vehicle deliveries declined 5% quarter-over-quarter amid increased competition and pricing pressure. Margin deterioration continues as price cuts impacted profitability. Cybertruck production ramp presents execution challenges. We remain committed to our long-term vision but acknowledge near-term headwinds." |} ].

Section WithNumbers.
Context {N : Type} `{Number N}.
Variable Math_sin : N -> N.
Variable Math_sqrt : N -> N.

(** [filings.map(f)] for an [f] that may draw random numbers. *)
Fixpoint mapM {A B : Type} (f : A -> Rand N B) (l : list A) : Rand N (list B) :=
  match l with
  | [] => ret []
  | a :: l' => b <- f a ;; bs <- mapM f l' ;; ret (b :: bs)
  end.

Definition generateSignals (filings : list Filing) : Rand N (list (Signal N)) :=
  mapM (fun filing =>
          SignalGenerator.generateSignal (f_ticker filing)
            (NLPEngine.analyze Math_sin Math_sqrt (f_text filing)))
       filings.

(** The effect of [BacktestSection]: signals for all sample filings,
    then the backtest with a five day buffer. *)
Definition runBacktestSection : Rand N (BacktestResult N) :=
  signals <- generateSignals sampleFilings ;;
  BacktestEngine.backtest signals
    {| bufferDays := int 5; initialCapital := int 1000000 |}.
End WithNumbers.
End Page.

(* ================================================================= *)
(** ** Theme switch *)

Module Theme.
Local Open Scope string_scope.

(** What the theme code reads and writes: the [data-theme] attribute of
    the document element and the [stryker-theme] item of the local
    storage, each absent ([null]) or a string. *)
Record Page : Type := {
  dataTheme : option string;
  storedTheme : option string
}.

(** [v || "dark"]: [null] and the empty string are falsy. *)
Definition or_dark (v : option string) : string :=
  match v with
  | None => "dark"
  | Some EmptyString => "dark"
  | Some s => s
  end.

Definition toggleTheme (p : Page) : Page :=
  let current := or_dark (dataTheme p) in
  let next := if String.eqb current "dark" then "light" else "dark" in
  {| dataTheme := Some next; storedTheme := Some next |}.

(** The effect of [Home]: load the saved theme. *)
Definition loadTheme (p : Page) : Page :=
  let saved := or_dark (storedTheme p) in
  {| dataTheme := Some saved; storedTheme := storedTheme p |}.

(** A page load: the attribute starts absent, the storage persists. *)
Definition reload (p : Page) : Page :=
  loadTheme {| dataTheme := None; storedTheme := storedTheme p |}.

Record KeyEvent : Type := {
  key : string;
  ctrlKey : bool;
  metaKey : bool
}.

(** [handleKeydown]; [activeTag] is the tag name of the active element,
    if there is one. *)
Definition handleKeydown (e : KeyEvent) (activeTag : option string) (p : Page) : Page :=
  if String.eqb (key e) "t" && negb (ctrlKey e) && negb (metaKey e) then
    let isInput :=
      match activeTag with
      | Some tag => String.eqb tag "INPUT" || String.eqb tag "TEXTAREA"
      | None => false
      end in
    if negb isInput then toggleTheme p else p
  else p.
End Theme.

(* ================================================================= *)
(** ** Counter animation *)

Module Counter.
Section WithNumbers.
Context {N : Type} `{Number N}.
Local Open Scope num_scope.

(** [Math.pow] is supplied by the host. *)
Variable Math_pow : N -> N -> N.

(** The two easings of the file: [1 - (1 - p) * (1 - p)] and
    [1 - Math.pow(1 - p, 3)]. *)
Definition ease_quadratic (progress : N) : N :=
  int 1 - (int 1 - progress) * (int 1 - progress).
Definition ease_cubic (progress : N) : N :=
  int 1 - Math_pow (int 1 - progress) (int 3).

(** One call of [animate]: the count it sets and whether it requests
    another frame. *)
Definition animate (ease : N -> N) (target duration start currentTime : N) : N * bool :=
  let elapsed := currentTime - start in
  let progress := Math_min (elapsed / duration) (int 1) in
  let eased := ease progress in
  (target * eased, progress <? int 1).

(** The frames the browser delivers, in order, until [animate] stops
    requesting; [count] is the state of the hook. *)
Fixpoint play (ease : N -> N) (target duration start : N) (frames : list N) (count : N) : N :=
  match frames with
  | [] => count
  | currentTime :: later =>
      let (c, again) := animate ease target duration start currentTime in
      if again then play ease target duration start later c else c
  end.
End WithNumbers.
End Counter.

(* ================================================================= *)
(** ** Number formatting *)

Module Format.
Import Js.
Local Open Scope string_scope.

(** Patterns with assertions: [\B], [(?=x)] and [(?!x)] around the
    plain patterns of [Js].  The matcher carries the character before
    the current position, which [\B] looks at. *)
Inductive xregex : Type :=
| XBase : regex -> xregex
| XSeq : xregex -> xregex -> xregex
| XAhead : xregex -> xregex
| XNotAhead : xregex -> xregex
| XNotBoundary : xregex.

Definition word_before (prev : option ascii) : bool :=
  match prev with Some c => is_word c | None => false end.
Definition word_at (s : string) : bool :=
  match s with String c _ => is_word c | EmptyString => false end.

(** The character before [rest] when [s] was read up to [rest]. *)
Fixpoint last_read (prev : option ascii) (s : string) (n : nat) : option ascii :=
  match n, s with
  | S n', String c s' => last_read (Some c) s' n'
  | _, _ => prev
  end.

Fixpoint xmatch (x : xregex) (prev : option ascii) (s : string)
         (k : option ascii -> string -> option string) {struct x} : option string :=
  match x with
  | XBase r =>
      rmatch false r s
        (fun rest => k (last_read prev s (String.length s - String.length rest)) rest)
  | XSeq a b => xmatch a prev s (fun prev' s' => xmatch b prev' s' k)
  | XAhead a =>
      match xmatch a prev s (fun _ rest => Some rest) with
      | Some _ => k prev s
      | None => None
      end
  | XNotAhead a =>
      match xmatch a prev s (fun _ rest => Some rest) with
      | Some _ => None
      | None => k prev s
      end
  | XNotBoundary =>
      if Bool.eqb (word_before prev) (word_at s) then k prev s else None
  end.

Definition xexec_at (x : xregex) (prev : option ascii) (s : string) : option string :=
  xmatch x prev s (fun _ rest => Some rest).

(** [s.replace(x, rep)] for a global pattern. *)
Fixpoint xreplace_from (fuel : nat) (x : xregex) (rep : string)
         (prev : option ascii) (s : string) : string :=
  match fuel with
  | O => s
  | S fuel' =>
      let keep_one :=
        match s with
        | EmptyString => EmptyString
        | String c s' => String c (xreplace_from fuel' x rep (Some c) s')
        end in
      match xexec_at x prev s with
      | Some rest =>
          if (String.length rest <? String.length s)%nat
          then append rep
                 (xreplace_from fuel' x rep
                    (last_read prev s (String.length s - String.length rest)) rest)
          else append rep keep_one
      | None => keep_one
      end
  end.
Definition xreplace (x : xregex) (rep s : string) : string :=
  xreplace_from (S (String.length s)) x rep None s.

(** [/\B(?=(\d{3})+(?!\d))/g]. *)
Definition re_thousands : xregex :=
  XSeq XNotBoundary
    (XAhead (XSeq (XBase (Plus (Times 3 (Class is_digit))))
                  (XNotAhead (XBase (Class is_digit))))).

(** The decimal digits of a natural number, and [n.toString()] for an
    integer [n] that a number holds exactly (below 2^53 in size). *)
Definition digits_of (n : N) : string := NilZero.string_of_uint (N.to_uint n).
Definition integer_toString (z : Z) : string :=
  match z with
  | Zneg p => String "-" (digits_of (Npos p))
  | _ => digits_of (Z.to_N z)
  end.

(** [formatNumber(num)] of the first part of the file:
    [Math.floor(num).toString().replace(..., ",")]. *)
Definition formatNumber (num : Q) : string :=
  xreplace re_thousands "," (integer_toString (Qfloor num)).

(** [x.toFixed(f)] for [|x| < 10^21] and [f <= 100], where the decimal
    form is used; [x] is the exact value of the number.
    [n] is the integer nearest to [|x| * 10^f], a tie going up; its
    digits are padded with zeros to more than [f] and cut into the part
    before and the part after the point. *)
Fixpoint zeros (n : nat) : string :=
  match n with
  | O => EmptyString
  | S n' => String "0" (zeros n')
  end.

Definition fixed_digits (x : Q) (f : nat) : string :=
  let n := Z.to_N (Qfloor (Qabs x * inject_Z (10 ^ Z.of_nat f) + (1 # 2))) in
  let m := digits_of n in
  if (String.length m <=? f)%nat then zeros (f + 1 - String.length m) ++ m else m.

Definition int_part (x : Q) (f : nat) : string :=
  substring 0 (String.length (fixed_digits x f) - f) (fixed_digits x f).
Definition frac_part (x : Q) (f : nat) : string :=
  substring (String.length (fixed_digits x f) - f) f (fixed_digits x f).

Definition sign_of (x : Q) : string :=
  if Qlt_le_dec x 0 then "-" else EmptyString.

Definition toFixed (x : Q) (f : nat) : string :=
  sign_of x
  ++ int_part x f
  ++ match f with
     | O => EmptyString
     | _ => "." ++ frac_part x f
     end.

(** [formatNumber(num, decimals)] of the second part of the file:
    [num.toFixed(decimals).replace(..., ",")]. *)
Definition formatNumber_decimals (num : Q) (decimals : nat) : string :=
  xreplace re_thousands "," (toFixed num decimals).
End Format.

(* ================================================================= *)
(** ** Notions used to state properties *)

Module Props.
Import Js.

(** Every character of [s] satisfies [p]. *)
Fixpoint all_chars (p : ascii -> bool) (s : string) : bool :=
  match s with
  | EmptyString => true
  | String c s' => p c && all_chars p s'
  end.

(** A lower-case letter, a digit or the underscore. *)
Definition is_token_char (c : ascii) : bool :=
  between 97 122 c || is_digit c || (code c =? 95)%nat.

(** What [tokenize] does to one character before it splits: lower
    case, and a space for everything that is neither word nor space. *)
Definition normalize_char (c : ascii) : ascii :=
  if is_word (lower c) || is_space (lower c) then lower c else " "%char.

(** The polynomial [c0 * 31^(n-1) + ... + c(n-1)] over the character
    codes, on unbounded integers. *)
Fixpoint poly31_from (h : Z) (s : string) : Z :=
  match s with
  | EmptyString => h
  | String c s' => poly31_from (h * 31 + Z.of_nat (code c)) s'
  end.
Definition poly31 (s : string) : Z := poly31_from 0 s.

(** The comparator [(a, b) => key(b) - key(a)]. *)
Definition descending {A : Type} (key : A -> nat) (a b : A) : Z :=
  (Z.of_nat (key b) - Z.of_nat (key a))%Z.

(** [key] does not increase from [a] to [b]. *)
Definition not_after {A : Type} (key : A -> nat) (a b : A) : Prop :=
  (key b <= key a)%nat.

(** [freq.get(k) || 0]. *)
Definition lookup_count (freq : list (string * nat)) (k : string) : nat :=
  match Map_get freq k with Some n => n | None => 0%nat end.

(** How often [phrase] occurs among the bigrams of [tokens]. *)
Definition occurrences (tokens : list string) (phrase : string) : nat :=
  count_occ string_dec (NLPEngine.bigrams tokens) phrase.

(** The tickers of the score tables. *)
Definition listed (ticker : string) : bool :=
  existsb (String.eqb ticker)
    ["AAPL"; "MSFT"; "GOOGL"; "NVDA"; "AMZN"; "META"; "TSLA"; "JPM"; "V"; "JNJ"]%string.

(** Every draw of the generator lies in [0,1), as [Math.random]
    promises. *)
Definition unit_draws (g : Rng Q) : Prop :=
  forall i : nat, (0 <= draws g i /\ draws g i < 1)%Q.

(** The generator after [n] more draws. *)
Definition advance {N : Type} (n : nat) (g : Rng N) : Rng N :=
  {| draws := draws g; cursor := (cursor g + n)%nat |}.

(** Commas before every group of three characters, counted from the
    right; no comma in front when [started] is false. *)
Fixpoint group_from (started : bool) (s : string) : string :=
  match s with
  | EmptyString => EmptyString
  | String c s' =>
      let here := String c (group_from true s') in
      if started && (String.length s mod 3 =? 0)%nat then String "," here else here
  end.
Definition group_thousands (digits : string) : string := group_from false digits.

(** The number of digits [s] starts with. *)
Fixpoint digit_run (s : string) : nat :=
  match s with
  | String c s' => if is_digit c then S (digit_run s') else O
  | EmptyString => O
  end.

(** A comma in front of every digit that follows a word character and
    starts a run of digits whose length is a multiple of three. *)
Fixpoint group_digits (after_word : bool) (s : string) : string :=
  match s with
  | EmptyString => EmptyString
  | String c s' =>
      let here := String c (group_digits (is_word c) s') in
      if after_word && is_digit c && (digit_run s mod 3 =? 0)%nat
      then String "," here else here
  end.

(** [s] without its commas. *)
Fixpoint strip_commas (s : string) : string :=
  match s with
  | EmptyString => EmptyString
  | String c s' => if Ascii.eqb c "," then strip_commas s' else String c (strip_commas s')
  end.
End Props.

(* ================================================================= *)
(** * Properties *)

Import Js NLPEngine SignalGenerator BacktestEngine Samples Page.
Local Open Scope string_scope.

#[local] Set Warnings "-inexact-float".

(** ** The embedding vector *)

Section EmbeddingShape.
Context {N : Type} `{Number N}.
Variables Math_sin Math_sqrt : N -> N.

Lemma add_token_from_length (tokens : list string) (hash : Z) (embedding : list N) :
  forall i, List.length (add_token_from Math_sin i hash tokens embedding)
            = List.length embedding.
Proof.
  induction embedding as [|v rest IH]; intros i; simpl.
  - reflexivity.
  - now rewrite IH.
Qed.

Lemma accumulate_from_length (all : list string) :
  forall (tokens : list string) (start : list N),
    List.length
      (fold_left (fun e token => add_token_from Math_sin 0 (hashCode token) all e)
         tokens start)
    = List.length start.
Proof.
  intros toks. induction toks as [|token rest IH]; intros start; simpl.
  - reflexivity.
  - rewrite IH. apply add_token_from_length.
Qed.

Lemma accumulate_length (tokens : list string) :
  List.length (accumulate Math_sin tokens) = 128%nat.
Proof.
  unfold accumulate. rewrite accumulate_from_length. apply repeat_length.
Qed.

Lemma generateEmbedding_length (tokens : list string) :
  List.length (generateEmbedding Math_sin Math_sqrt tokens) = 128%nat.
Proof.
  unfold generateEmbedding. rewrite length_map. apply accumulate_length.
Qed.
End EmbeddingShape.

(** On binary64, [x || 1] is a number other than zero. *)
Lemma orElse_one_float (x : float) :
  is_zero (orElse x (int 1)) = false /\ is_nan (orElse x (int 1)) = false.
Proof.
  unfold orElse. cbn [truthy Number_float]. unfold F64.truthy.
  destruct (is_zero x) eqn:Ez; simpl.
  - split; reflexivity.
  - destruct (is_nan x) eqn:En; simpl.
    + split; reflexivity.
    + split; assumption.
Qed.

(** C10. [generateEmbedding] returns 128 numbers for every token list;
    on binary64 both divisors, [tokens.length || 1] and the magnitude
    [sqrt(..) || 1], are numbers other than zero, and the empty token list
    gives the vector of 128 zeros. *)
Theorem generateEmbedding_total (Math_sin : float -> float) :
  (forall tokens : list string,
      List.length (generateEmbedding Math_sin PrimFloat.sqrt tokens) = 128%nat
      /\ is_zero (divisor (N := float) tokens) = false
      /\ is_nan (divisor (N := float) tokens) = false
      /\ is_zero (magnitude PrimFloat.sqrt (accumulate Math_sin tokens)) = false
      /\ is_nan (magnitude PrimFloat.sqrt (accumulate Math_sin tokens)) = false)
  /\ divisor (N := float) [] = 1%float
  /\ magnitude PrimFloat.sqrt (accumulate Math_sin []) = 1%float
  /\ generateEmbedding Math_sin PrimFloat.sqrt [] = repeat 0%float 128.
Proof.
  split; [intros tokens | repeat split; vm_compute; reflexivity].
  split; [apply generateEmbedding_length |].
  unfold divisor, magnitude.
  split; [apply orElse_one_float |].
  split; [apply orElse_one_float |].
  split; apply orElse_one_float.
Qed.

(** ** Rounding on exact rationals *)

Section RationalRounding.
Local Open Scope Q_scope.

Lemma Qround_half_up_upper (q : Q) : Qround_half_up q <= q + (1 # 2).
Proof. unfold Qround_half_up. apply Qfloor_le. Qed.

Lemma Qround_half_up_lower (q : Q) : q - (1 # 2) < Qround_half_up q.
Proof.
  unfold Qround_half_up.
  pose proof (Qlt_floor (q + (1 # 2))) as Hlt.
  rewrite inject_Z_plus in Hlt. change (inject_Z 1) with 1 in Hlt. lra.
Qed.

Lemma Qround_half_up_mono (a b : Q) : a <= b -> Qround_half_up a <= Qround_half_up b.
Proof.
  intros Hab. unfold Qround_half_up. rewrite <- Zle_Qle.
  apply Qfloor_resp_le. lra.
Qed.

Lemma Qround_half_up_int (z : Z) : Qround_half_up (inject_Z z) == inject_Z z.
Proof.
  unfold Qround_half_up.
  assert (Hfl : Qfloor (inject_Z z + (1 # 2)) = z).
  { apply Z.le_antisymm.
    - apply Z.lt_succ_r. rewrite Zlt_Qlt.
      apply Qle_lt_trans with (inject_Z z + (1 # 2)); [apply Qfloor_le |].
      unfold Z.succ. rewrite inject_Z_plus. change (inject_Z 1) with 1. lra.
    - rewrite <- (Qfloor_Z z) at 1. apply Qfloor_resp_le. lra. }
  rewrite Hfl. reflexivity.
Qed.

Lemma Qround_half_up_ge (z : Z) (q : Q) : inject_Z z <= q -> inject_Z z <= Qround_half_up q.
Proof.
  intros Hq. rewrite <- (Qround_half_up_int z). now apply Qround_half_up_mono.
Qed.

Lemma Qround_half_up_le (z : Z) (q : Q) : q <= inject_Z z -> Qround_half_up q <= inject_Z z.
Proof.
  intros Hq. rewrite <- (Qround_half_up_int z). now apply Qround_half_up_mono.
Qed.
End RationalRounding.

(** ** Lexicon sentiment *)

(** C6. On the tokens growth, growth, risk (three tokens; the dictionary
    has growth as a positive and risk as a negative word) the sentiment
    has positive = 66.67 and negative = 33.33, in exact arithmetic and
    on binary64 alike. *)
Theorem computeSentiment_scenario_A :
  hits positiveWords "growth" = true /\ hits negativeWords "growth" = false
  /\ hits negativeWords "risk" = true /\ hits positiveWords "risk" = false
  /\ List.length ["growth"; "growth"; "risk"] = 3%nat
  /\ (positive (computeSentiment (N := Q) ["growth"; "growth"; "risk"]) == 66.67)%Q
  /\ (negative (computeSentiment (N := Q) ["growth"; "growth"; "risk"]) == 33.33)%Q
  /\ positive (computeSentiment (N := float) ["growth"; "growth"; "risk"]) = 66.67%float
  /\ negative (computeSentiment (N := float) ["growth"; "growth"; "risk"]) = 33.33%float.
Proof.
  repeat split; vm_compute; reflexivity.
Qed.

(** ** analyze *)

(** C8. For the empty text [analyze] returns (the model is a total
    function, nothing can throw): no tokens, no entities, no key phrases,
    all three counters at zero, and from them the sentiment record
    positive 0, negative 0, neutral 100, confidence 100. *)
Theorem analyze_empty_text (Math_sin : float -> float) :
  tokenize EmptyString = []
  /\ count_tokens (tokenize EmptyString)
     = {| n_positive := 0; n_negative := 0; n_uncertainty := 0 |}
  /\ analyze Math_sin PrimFloat.sqrt EmptyString
     = {| tokens := [];
          embeddings := repeat 0%float 128;
          sentiment := {| positive := 0%float; negative := 0%float;
                          neutral := 100%float; confidence := 100%float |};
          entities := [];
          keyPhrases := [] |}.
Proof.
  repeat split; vm_compute; reflexivity.
Qed.

(** C9. The [tokens] field holds the first 50 tokens and no more, while
    sentiment, embedding and key phrases are computed from all tokens;
    on [long_text] (54 tokens) the difference shows in the sentiment and
    in the key phrases. *)
Theorem analyze_truncates_tokens_only :
  (forall (N : Type) (num : Number N) (Math_sin Math_sqrt : N -> N) (text : string),
      let r := analyze Math_sin Math_sqrt text in
      tokens r = firstn 50 (tokenize text)
      /\ (List.length (tokens r) <= 50)%nat
      /\ sentiment r = computeSentiment (tokenize text)
      /\ embeddings r = generateEmbedding Math_sin Math_sqrt (tokenize text)
      /\ keyPhrases r = extractKeyPhrases (tokenize text))
  /\ List.length (tokenize long_text) = 54%nat
  /\ (positive (computeSentiment (N := Q) (tokenize long_text)) == 3.70)%Q
  /\ (positive (computeSentiment (N := Q) (firstn 50 (tokenize long_text))) == 0)%Q
  /\ extractKeyPhrases (tokenize long_text) = ["table table"; "growth risk"]
  /\ extractKeyPhrases (firstn 50 (tokenize long_text)) = ["table table"].
Proof.
  split.
  - intros N num Math_sin Math_sqrt text r. subst r. cbn [analyze tokens sentiment embeddings keyPhrases].
    unfold slice0. repeat split. apply firstn_le_length.
  - repeat split; vm_compute; reflexivity.
Qed.

(** ** Signal classification *)

Section Classification.
Context {N : Type} `{Number N}.

Lemma classify_decision (c f t : N) :
  fst (classify c f t)
  = if (c >=? dec 65 2)%num then BUY
    else if (c >=? dec 40 2)%num then HOLD else SELL.
Proof.
  unfold classify.
  destruct (c >=? dec 65 2)%num; [reflexivity |].
  destruct (c >=? dec 40 2)%num; reflexivity.
Qed.

(** [generateSignal] is [assemble] at the scores it computed. *)
Lemma generateSignal_assemble (ticker : string) (nlpResult : NLPResult N) (g : Rng N) :
  exists f t : N,
    run (generateSignal ticker nlpResult) g
    = assemble ticker (sentimentScore nlpResult) f t
    /\ run (compositeOf ticker nlpResult) g
       = compositeScore (sentimentScore nlpResult) f t.
Proof.
  unfold generateSignal, compositeOf, run, bind, ret.
  destruct (computeFundamentalScore ticker g) as [f g1].
  destruct (computeTechnicalScore ticker g1) as [t g2].
  exists (ToNumber f), (ToNumber t). split; reflexivity.
Qed.
End Classification.

(** NaN on binary64: it absorbs a sum, and every comparison with it
    fails. *)
Lemma NaN_float : NaN (N := float) = PrimFloat.nan.
Proof. reflexivity. Qed.

Lemma add_nan_r (x : float) : PrimFloat.add x PrimFloat.nan = PrimFloat.nan.
Proof.
  rewrite <- (SF2Prim_Prim2SF (PrimFloat.add x PrimFloat.nan)).
  rewrite add_spec. change (Prim2SF PrimFloat.nan) with S754_nan.
  destruct (Prim2SF x) as [sx | sx | | sx mx ex]; reflexivity.
Qed.

(** With both scores NaN the composite score is NaN, whatever the
    sentiment. *)
Lemma compositeScore_NaN (s : float) :
  compositeScore s NaN NaN = PrimFloat.nan.
Proof.
  unfold compositeScore. cbn [nadd nmul Number_float]. rewrite NaN_float.
  change (PrimFloat.mul w_fundamental PrimFloat.nan) with PrimFloat.nan.
  change (PrimFloat.mul w_technical PrimFloat.nan) with PrimFloat.nan.
  rewrite add_nan_r. reflexivity.
Qed.

(** C2. The claim fails at a ticker that names a member of
    [Object.prototype].  For "constructor" both tables give the inherited function instead of
    a score: no random number is drawn, the composite score is NaN,
    which is not below 0.40 (nor at least 0.40), and the decision is
    SELL all the same, with a confidence of NaN, whatever the feature
    record. *)
Theorem inherited_ticker_sells_on_NaN (nlpResult : NLPResult float) (g : Rng float) :
  let c := run (compositeOf "constructor" nlpResult) g in
  let sg := run (generateSignal "constructor" nlpResult) g in
  fst (computeFundamentalScore "constructor" g) = Member "constructor"
  /\ fst (computeTechnicalScore "constructor" g) = Member "constructor"
  /\ snd (generateSignal "constructor" nlpResult g) = g
  /\ c = PrimFloat.nan
  /\ (c <? dec 40 2)%num = false
  /\ (c >=? dec 40 2)%num = false
  /\ signal sg = SELL
  /\ s_confidence sg = PrimFloat.nan
  /\ reasoning sg = ["Elevated negative sentiment in disclosures"].
Proof.
  intros c sg.
  assert (Hc : c = PrimFloat.nan).
  { subst c. unfold compositeOf, run, bind, ret. cbn [fst snd computeFundamentalScore
      computeTechnicalScore]. apply compositeScore_NaN. }
  assert (Hsg : sg = assemble "constructor" (sentimentScore nlpResult) NaN NaN)
    by reflexivity.
  repeat split; try reflexivity; try assumption.
  - rewrite Hc. reflexivity.
  - rewrite Hc. reflexivity.
  - rewrite Hsg. cbn [assemble signal]. rewrite compositeScore_NaN. reflexivity.
  - rewrite Hsg. cbn [assemble s_confidence]. rewrite compositeScore_NaN. reflexivity.
  - rewrite Hsg. cbn [assemble reasoning]. rewrite compositeScore_NaN. reflexivity.
Qed.

(** C3. At a text of positive words only the sentiment score is 1.5,
    above 1, and the reported component is 150: the score is used
    unclamped. *)
Theorem sentimentScore_not_clamped
        (sinQ sqrtQ : Q -> Q) (sinF : float -> float) (gQ : Rng Q) (gF : Rng float) :
  let nlpQ := analyze sinQ sqrtQ all_growth in
  let nlpF := analyze sinF PrimFloat.sqrt all_growth in
  (positive (sentiment nlpQ) == 100)%Q
  /\ (negative (sentiment nlpQ) == 0)%Q
  /\ (sentimentScore nlpQ == 1.5)%Q
  /\ (c_sentiment (components (run (generateSignal "NVDA" nlpQ) gQ)) == 150)%Q
  /\ sentimentScore nlpF = 1.5%float
  /\ c_sentiment (components (run (generateSignal "NVDA" nlpF) gF)) = 150%float.
Proof.
  intros nlpQ nlpF. subst nlpQ nlpF.
  unfold sentimentScore, generateSignal, run, bind, ret.
  cbn [analyze sentiment].
  repeat split; vm_compute; reflexivity.
Qed.

(** C4. At the same text and ticker NVDA the composite score is 1.106
    and the confidence of the signal is 121, above 100: no clamp is
    applied. *)
Theorem confidence_exceeds_100
        (sinQ sqrtQ : Q -> Q) (sinF : float -> float) (gQ : Rng Q) (gF : Rng float) :
  let nlpQ := analyze sinQ sqrtQ all_growth in
  let nlpF := analyze sinF PrimFloat.sqrt all_growth in
  (run (compositeOf "NVDA" nlpQ) gQ == 1.106)%Q
  /\ signal (run (generateSignal "NVDA" nlpQ) gQ) = BUY
  /\ (s_confidence (run (generateSignal "NVDA" nlpQ) gQ) == 121)%Q
  /\ s_confidence (run (generateSignal "NVDA" nlpF) gF) = 121%float.
Proof.
  intros nlpQ nlpF. subst nlpQ nlpF.
  unfold compositeOf, sentimentScore, generateSignal, run, bind, ret.
  cbn [analyze sentiment].
  repeat split; vm_compute; reflexivity.
Qed.


(** ** Lexicon sentiment, continued *)

(** C7, as stated, fails: with one positive, one negative and one
    other token all three returned fields are 33.33, and
    100 - 33.33 - 33.33 is 33.34. *)
Lemma neutral_equation_fails_on_fields :
  let r := computeSentiment (N := Q) ["growth"; "risk"; "table"] in
  (positive r == 33.33 /\ negative r == 33.33 /\ neutral r == 33.33
   /\ ~ neutral r == 100 - positive r - negative r)%Q.
Proof.
  vm_compute. repeat split; try reflexivity. intros H. discriminate H.
Qed.

(** C7, amended. The returned neutral value is the rounding to two
    decimals of 100 - positiveScore - negativeScore, taken on the
    unrounded percentages and without any clamp; over the returned
    fields the equation neutral = 100 - positive - negative holds up to
    the rounding, within 0.015. *)
Theorem neutral_is_rounded_complement (tokens : list string) :
  let c := count_tokens tokens in
  let total := orElse (of_nat (List.length tokens)) 1%Q in
  let positiveScore := (of_nat (n_positive c) / total * 100)%Q in
  let negativeScore := (of_nat (n_negative c) / total * 100)%Q in
  let r := computeSentiment (N := Q) tokens in
  (neutral r == Qround_half_up ((100 - positiveScore - negativeScore) * 100) / 100
   /\ Qabs (neutral r - (100 - positive r - negative r)) <= 0.015)%Q.
Proof.
  intros c total positiveScore negativeScore r. subst r.
  cbn [computeSentiment positive negative neutral
       Math_round nadd nsub nmul ndiv Number_Q].
  change (int 100) with 100%Q. change (int 1) with 1%Q.
  fold c. fold total. fold positiveScore. fold negativeScore.
  split; [reflexivity |].
  pose proof (Qround_half_up_upper (positiveScore * 100)) as Hp1.
  pose proof (Qround_half_up_lower (positiveScore * 100)) as Hp2.
  pose proof (Qround_half_up_upper (negativeScore * 100)) as Hn1.
  pose proof (Qround_half_up_lower (negativeScore * 100)) as Hn2.
  pose proof (Qround_half_up_upper ((100 - positiveScore - negativeScore) * 100)) as Hu1.
  pose proof (Qround_half_up_lower ((100 - positiveScore - negativeScore) * 100)) as Hu2.
  set (rp := Qround_half_up (positiveScore * 100)) in *.
  set (rn := Qround_half_up (negativeScore * 100)) in *.
  set (ru := Qround_half_up ((100 - positiveScore - negativeScore) * 100)) in *.
  clearbody rp rn ru positiveScore negativeScore.
  unfold Qdiv. change (/ 100)%Q with (1 # 100)%Q.
  apply Qabs_Qle_condition. split; lra.
Qed.

(** ** The simulated backtest *)

Section AverageConfidence.
Local Open Scope Q_scope.

Lemma sum_confidence_nonneg (signals : list (Signal Q)) :
  (forall s, In s signals -> 0 <= s_confidence s) ->
  forall acc : Q, 0 <= acc ->
    0 <= fold_left (fun sum s => (sum + s_confidence s)%num) signals acc.
Proof.
  induction signals as [|s rest IH]; intros Hall acc Hacc; simpl.
  - assumption.
  - apply IH.
    + intros s' Hin. apply Hall. now right.
    + pose proof (Hall s (or_introl eq_refl)). lra.
Qed.

Lemma divisor_positive (n : nat) : 0 < orElse (of_nat n) (int 1).
Proof.
  unfold orElse, of_nat, int. cbn [truthy of_Z Number_Q].
  destruct n as [|n].
  - reflexivity.
  - assert (Hpos : 0 < inject_Z (Z.of_nat (S n))).
    { change 0 with (inject_Z 0). rewrite <- Zlt_Qlt. lia. }
    destruct (Qeq_bool (inject_Z (Z.of_nat (S n))) 0) eqn:E; simpl.
    + reflexivity.
    + assumption.
Qed.

Lemma avgConfidence_nonneg (signals : list (Signal Q)) :
  (forall s, In s signals -> 0 <= s_confidence s) ->
  0 <= avgConfidence signals.
Proof.
  intros Hall. unfold avgConfidence. cbn [ndiv Number_Q].
  apply Qle_shift_div_l; [apply divisor_positive |].
  rewrite Qmult_0_l. apply sum_confidence_nonneg; [assumption |].
  discriminate.
Qed.
End AverageConfidence.

(** The result of [backtest] does not depend on the configuration:
    neither [bufferDays] nor [initialCapital] is read. *)
Lemma backtest_ignores_config {N : Type} `{Number N}
      (signals : list (Signal N)) (config1 config2 : BacktestConfig N) (g : Rng N) :
  backtest signals config1 g = backtest signals config2 g.
Proof. reflexivity. Qed.




(* ================================================================= *)
(** * Further properties of the engines and of the page *)

Import Props.

(** ** Tokenization *)

Lemma exec_at_punctuation (c : ascii) (s : string) :
  exec_at re_punctuation (String c s)
  = if negb (is_word c || is_space c) then Some s else None.
Proof.
  unfold exec_at, re_punctuation. cbn [pattern ignoreCase rmatch].
  unfold class_has. cbn [andb]. now rewrite orb_false_r.
Qed.

Lemma replace_from_punctuation (fuel : nat) :
  forall s : string, (String.length s < fuel)%nat ->
    Js.replace_from fuel re_punctuation " " s
    = map_chars (fun c => if is_word c || is_space c then c else " "%char) s.
Proof.
  induction fuel as [|fuel IH]; intros s Hlen; [lia |].
  destruct s as [|c s]; [reflexivity |].
  cbn [Js.replace_from map_chars]. rewrite exec_at_punctuation.
  cbn [String.length] in Hlen.
  destruct (is_word c || is_space c); cbn [negb].
  - rewrite IH by lia. reflexivity.
  - cbn [String.length]. rewrite (proj2 (Nat.ltb_lt _ _)) by lia.
    rewrite IH by lia. reflexivity.
Qed.

Lemma map_chars_compose (f g : ascii -> ascii) (s : string) :
  map_chars f (map_chars g s) = map_chars (fun c => f (g c)) s.
Proof. induction s as [|c s IH]; cbn; [reflexivity | now rewrite IH]. Qed.

(** Lower-casing and blanking the punctuation is a character-wise map. *)
Lemma normalized_text (text : string) :
  Js.replace re_punctuation " " (toLowerCase text) = map_chars normalize_char text.
Proof.
  unfold Js.replace. rewrite replace_from_punctuation by lia.
  unfold toLowerCase. rewrite map_chars_compose. reflexivity.
Qed.

(** The greedy run of spaces at the start of [s]. *)
Lemma star_space_exec (s : string) :
  rmatch false (Star (Class is_space)) s Some = Some (trimStart s).
Proof.
  cbn [rmatch].
  match goal with |- ?f (String.length s) s = _ => set (iterate := f) end.
  assert (Hit : forall fuel s0, (String.length s0 <= fuel)%nat ->
                                iterate fuel s0 = Some (trimStart s0)).
  { induction fuel as [|fuel IH]; intros s0 Hlen.
    - destruct s0; [reflexivity | cbn in Hlen; lia].
    - destruct s0 as [|c s0]; [reflexivity |].
      cbn [String.length] in Hlen.
      unfold iterate; cbn [rmatch]; fold iterate.
      unfold class_has. cbn [andb]. rewrite orb_false_r.
      cbn [trimStart]. destruct (is_space c); [| reflexivity].
      cbn [String.length]. rewrite (proj2 (Nat.ltb_lt _ _)) by lia.
      rewrite IH by lia. reflexivity. }
  apply Hit. lia.
Qed.

Lemma exec_at_spaces (c : ascii) (s : string) :
  exec_at re_spaces (String c s)
  = if is_space c then Some (trimStart s) else None.
Proof.
  unfold exec_at, re_spaces, Plus. cbn [pattern ignoreCase].
  change (rmatch false (Seq (Class is_space) (Star (Class is_space))) (String c s) Some)
    with (if class_has false is_space c
          then rmatch false (Star (Class is_space)) s Some else None).
  unfold class_has. cbn [andb]. rewrite orb_false_r.
  destruct (is_space c); [apply star_space_exec | reflexivity].
Qed.

Lemma trimStart_length (s : string) : (String.length (trimStart s) <= String.length s)%nat.
Proof.
  induction s as [|c s IH]; cbn; [lia |].
  destruct (is_space c); cbn; lia.
Qed.

Lemma all_chars_append (p : ascii -> bool) (a b : string) :
  all_chars p (a ++ b) = all_chars p a && all_chars p b.
Proof.
  induction a as [|c a IH]; cbn; [reflexivity |].
  rewrite IH. now rewrite andb_assoc.
Qed.

Lemma all_chars_trimStart (p : ascii -> bool) (s : string) :
  all_chars p s = true -> all_chars p (trimStart s) = true.
Proof.
  induction s as [|c s IH]; cbn; [reflexivity |].
  intros H. apply andb_true_iff in H as [Hc Hs].
  destruct (is_space c); [auto | cbn; now rewrite Hc, Hs].
Qed.

(** Splitting at the runs of spaces: when every character is a space or
    satisfies [p], every piece consists of characters that satisfy [p]
    and are no spaces. *)
Lemma split_from_pieces (p : ascii -> bool) (fuel : nat) :
  forall pending s : string,
    (String.length s < fuel)%nat ->
    all_chars (fun c => negb (is_space c) && p c) pending = true ->
    all_chars (fun c => is_space c || p c) s = true ->
    Forall (fun piece => all_chars (fun c => negb (is_space c) && p c) piece = true)
           (split_from fuel re_spaces pending s).
Proof.
  induction fuel as [|fuel IH]; intros pending s Hlen Hpend Hs; [lia |].
  destruct s as [|c s].
  - cbn. constructor; [assumption | constructor].
  - cbn [split_from]. rewrite exec_at_spaces.
    cbn [all_chars] in Hs. apply andb_true_iff in Hs as [Hc Hs].
    cbn [String.length] in Hlen.
    destruct (is_space c) eqn:Esp.
    + pose proof (trimStart_length s) as Hle.
      cbn [String.length].
      rewrite (proj2 (Nat.eqb_neq _ _)) by lia. cbn [andb].
      constructor; [assumption |].
      apply IH; [lia | reflexivity | now apply all_chars_trimStart].
    + apply IH; [lia | | assumption].
      rewrite all_chars_append, Hpend. cbn. rewrite Esp. cbn in Hc |- *.
      now rewrite Hc.
Qed.

Lemma all_chars_map (p : ascii -> bool) (f : ascii -> ascii) (s : string) :
  all_chars p (map_chars f s) = all_chars (fun c => p (f c)) s.
Proof. induction s as [|c s IH]; cbn; [reflexivity | now rewrite IH]. Qed.

Lemma all_chars_true (p : ascii -> bool) (s : string) :
  (forall c, p c = true) -> all_chars p s = true.
Proof. intros Hp. induction s as [|c s IH]; cbn; [reflexivity | now rewrite Hp, IH]. Qed.

Lemma normalize_char_cases (c : ascii) :
  is_space (normalize_char c) || is_token_char (normalize_char c) = true.
Proof.
  destruct c as [[] [] [] [] [] [] [] []]; reflexivity.
Qed.

Lemma tokens_are_words (text token : string) :
  In token (tokenize text) ->
  (3 <= String.length token)%nat /\ all_chars is_token_char token = true.
Proof.
  unfold tokenize. intros Hin. apply filter_In in Hin as [Hin Hlen].
  apply Nat.ltb_lt in Hlen. split; [lia |].
  rewrite normalized_text in Hin.
  assert (Hall : Forall (fun piece =>
                           all_chars (fun c => negb (is_space c) && is_token_char c) piece
                           = true)
                        (Js.split re_spaces (map_chars normalize_char text))).
  { unfold Js.split. destruct (map_chars normalize_char text) as [|c s] eqn:E.
    - destruct (exec_at re_spaces EmptyString); repeat constructor.
    - rewrite <- E. apply split_from_pieces.
      + lia.
      + reflexivity.
      + rewrite all_chars_map. apply all_chars_true. apply normalize_char_cases. }
  rewrite Forall_forall in Hall. specialize (Hall token Hin).
  clear - Hall. induction token as [|c t IH]; [reflexivity |].
  cbn in Hall |- *. apply andb_true_iff in Hall as [Hc Ht].
  apply andb_true_iff in Hc as [_ Hc]. now rewrite Hc, IH.
Qed.

(** X1. Every token is made of lower-case letters, digits and
    underscores only, and has at least three characters. *)
Theorem tokenize_tokens_are_words (text token : string) :
  In token (tokenize text) ->
  (3 <= String.length token)%nat /\ all_chars is_token_char token = true.
Proof. apply tokens_are_words; assumption. Qed.

Lemma tokenize_tokens_are_words_witness :
  In "growth" (tokenize "Revenue GROWTH, up 32%!")
  /\ (3 <= String.length "growth")%nat /\ all_chars is_token_char "growth" = true.
Proof.
  assert (Hin : In "growth" (tokenize "Revenue GROWTH, up 32%!")).
  { vm_compute. right. left. reflexivity. }
  split; [exact Hin |].
  exact (tokenize_tokens_are_words "Revenue GROWTH, up 32%!" "growth" Hin).
Defined.


(** ** Stemming *)

Lemma append_assoc (a b c : string) : (a ++ b) ++ c = a ++ (b ++ c).
Proof. induction a as [|x a IH]; cbn; [reflexivity | now rewrite IH]. Qed.

Lemma rev_onto_append (s acc : string) : rev_onto s acc = reverse s ++ acc.
Proof.
  unfold reverse. revert acc.
  induction s as [|c s IH]; intros acc; cbn; [reflexivity |].
  rewrite (IH (String c acc)), (IH (String c EmptyString)).
  now rewrite append_assoc.
Qed.

Lemma append_empty_r (s : string) : s ++ EmptyString = s.
Proof. induction s as [|c s IH]; cbn; [reflexivity | now rewrite IH]. Qed.

Lemma rev_onto_over_append (a b acc : string) :
  rev_onto (a ++ b) acc = rev_onto b (rev_onto a acc).
Proof.
  revert acc. induction a as [|c a IH]; intros acc; cbn; [reflexivity | apply IH].
Qed.

Lemma reverse_append (a b : string) : reverse (a ++ b) = reverse b ++ reverse a.
Proof.
  unfold reverse at 1. rewrite rev_onto_over_append, rev_onto_append. reflexivity.
Qed.

Lemma reverse_involutive (s : string) : reverse (reverse s) = s.
Proof.
  induction s as [|c s IH]; [reflexivity |].
  change (String c s) with (String c EmptyString ++ s).
  rewrite reverse_append, reverse_append, IH. reflexivity.
Qed.

Lemma prefix_split (a b : string) : prefix a b = true -> exists c, b = a ++ c.
Proof.
  revert b. induction a as [|x a IH]; intros b H.
  - now exists b.
  - destruct b as [|y b]; cbn in H; [discriminate |].
    destruct (Ascii.ascii_dec x y) as [-> | _]; [| discriminate].
    destruct (IH b H) as [c ->]. now exists c.
Qed.

(** [endsWith] holds only on a word that ends with the suffix. *)
Lemma endsWith_split (word suffix : string) :
  endsWith word suffix = true -> exists stem, word = stem ++ suffix.
Proof.
  unfold endsWith. intros H. apply prefix_split in H as [c Hc].
  exists (reverse c).
  rewrite <- (reverse_involutive word), Hc, reverse_append, reverse_involutive.
  reflexivity.
Qed.

Lemma substring_prefix (a b : string) : substring 0 (String.length a) (a ++ b) = a.
Proof.
  induction a as [|c a IH]; cbn.
  - destruct b; reflexivity.
  - now rewrite IH.
Qed.

Lemma append_length (a b : string) :
  String.length (a ++ b) = (String.length a + String.length b)%nat.
Proof. induction a as [|c a IH]; cbn; [reflexivity | now rewrite IH]. Qed.

Lemma slice_to_neg_append (stem suffix : string) :
  slice_to_neg (stem ++ suffix) (String.length suffix) = stem.
Proof.
  unfold slice_to_neg. rewrite append_length.
  replace (String.length stem + String.length suffix - String.length suffix)%nat
    with (String.length stem) by lia.
  apply substring_prefix.
Qed.

Lemma stem_with_cases (sfx : list string) (word : string) :
  stem_with sfx word = word
  \/ exists suffix,
      In suffix sfx
      /\ word = stem_with sfx word ++ suffix
      /\ (3 < String.length (stem_with sfx word))%nat.
Proof.
  induction sfx as [|suffix sfx IH]; cbn [stem_with]; [now left |].
  destruct (endsWith word suffix) eqn:Eends; cbn [andb].
  - destruct (String.length suffix + 3 <? String.length word)%nat eqn:Elen.
    + right. exists suffix.
      apply endsWith_split in Eends as [stem ->].
      apply Nat.ltb_lt in Elen. rewrite append_length in Elen.
      rewrite slice_to_neg_append.
      split; [now left | split; [reflexivity | lia]].
    + destruct IH as [IH | (s & Hin & Hw & Hl)]; [now left |].
      right. exists s. split; [now right | now split].
  - destruct IH as [IH | (s & Hin & Hw & Hl)]; [now left |].
    right. exists s. split; [now right | now split].
Qed.

Lemma stemWord_cases (word : string) :
  stemWord word = word
  \/ exists suffix,
      In suffix suffixes
      /\ word = stemWord word ++ suffix
      /\ (3 < String.length (stemWord word))%nat.
Proof. apply stem_with_cases. Qed.

(** X2. [stemWord] either returns the word unchanged or cuts off
    exactly one suffix of the list, and then at least four characters
    are left. *)
Theorem stemWord_cuts_one_suffix (word : string) :
  stemWord word = word
  \/ exists suffix,
      In suffix suffixes
      /\ word = stemWord word ++ suffix
      /\ (3 < String.length (stemWord word))%nat.
Proof. apply stemWord_cases; assumption. Qed.

(** X3. A word of at most five characters is its own stem. *)
Theorem stemWord_short_word (word : string) :
  (String.length word <= 5)%nat -> stemWord word = word.
Proof.
  intros Hlen.
  destruct (stemWord_cases word) as [H | (suffix & Hin & Hw & Hl)];
    [assumption |].
  exfalso. rewrite Hw, append_length in Hlen.
  assert (2 <= String.length suffix)%nat.
  { unfold suffixes in Hin. cbn in Hin.
    repeat (destruct Hin as [<- | Hin]; [cbn; lia |]). destruct Hin. }
  lia.
Qed.

Lemma stemWord_short_word_witness :
  (String.length "added" <= 5)%nat /\ stemWord "added" = "added".
Proof.
  assert (Hlen : (String.length "added" <= 5)%nat) by (cbn; lia).
  split; [exact Hlen | exact (stemWord_short_word "added" Hlen)].
Defined.

(** ** The string hash *)

Local Open Scope Z_scope.

Lemma toInt32_range (z : Z) : - 2 ^ 31 <= toInt32 z < 2 ^ 31.
Proof.
  unfold toInt32.
  pose proof (Z.mod_pos_bound z (2 ^ 32) ltac:(lia)) as Hm.
  destruct (2 ^ 31 <=? z mod 2 ^ 32) eqn:E.
  - apply Z.leb_le in E. lia.
  - apply Z.leb_gt in E. lia.
Qed.

Lemma toInt32_mod (z : Z) : toInt32 z mod 2 ^ 32 = z mod 2 ^ 32.
Proof.
  unfold toInt32.
  destruct (2 ^ 31 <=? z mod 2 ^ 32).
  - replace (z mod 2 ^ 32 - 2 ^ 32) with (z mod 2 ^ 32 + (-1) * 2 ^ 32) by lia.
    rewrite Z.mod_add by lia. apply Z.mod_mod. lia.
  - apply Z.mod_mod. lia.
Qed.

Lemma toInt32_fixed (z : Z) : - 2 ^ 31 <= z < 2 ^ 31 -> toInt32 z = z.
Proof.
  intros Hz. unfold toInt32.
  destruct (Z_lt_le_dec z 0) as [Hneg | Hpos].
  - assert (Hm : z mod 2 ^ 32 = z + 2 ^ 32).
    { symmetry. apply Z.mod_unique with (q := -1); lia. }
    rewrite Hm. destruct (2 ^ 31 <=? z + 2 ^ 32) eqn:E; [lia |].
    apply Z.leb_gt in E. lia.
  - rewrite Z.mod_small by lia.
    destruct (2 ^ 31 <=? z) eqn:E; [apply Z.leb_le in E; lia | reflexivity].
Qed.

Lemma hash_step_mod (h h' c : Z) :
  h mod 2 ^ 32 = h' mod 2 ^ 32 ->
  toInt32 (toInt32 (h * 2 ^ 5) - h + c) mod 2 ^ 32 = (h' * 31 + c) mod 2 ^ 32.
Proof.
  intros Hh. rewrite toInt32_mod.
  rewrite Z.add_mod, Zminus_mod, toInt32_mod by lia.
  rewrite <- Zminus_mod, <- Z.add_mod by lia.
  replace (h * 2 ^ 5 - h + c) with (h * 31 + c) by lia.
  rewrite Z.add_mod, Z.mul_mod, Hh by lia.
  rewrite <- Z.mul_mod, <- Z.add_mod by lia. reflexivity.
Qed.

Lemma hash_from_mod (s : string) :
  forall h h', h mod 2 ^ 32 = h' mod 2 ^ 32 ->
               hash_from h s mod 2 ^ 32 = poly31_from h' s mod 2 ^ 32.
Proof.
  induction s as [|c s IH]; intros h h' Hh; cbn [hash_from poly31_from].
  - assumption.
  - apply IH. now apply hash_step_mod.
Qed.

Lemma hash_from_range (s : string) :
  forall h, - 2 ^ 31 <= h < 2 ^ 31 -> - 2 ^ 31 <= hash_from h s < 2 ^ 31.
Proof.
  induction s as [|c s IH]; intros h Hh; cbn [hash_from].
  - assumption.
  - apply IH. apply toInt32_range.
Qed.

(** X4. [hashCode] is the polynomial hash with multiplier 31 over the
    character codes, reduced to a signed 32-bit integer. *)
Theorem hashCode_is_polynomial_hash (str : string) :
  - 2 ^ 31 <= hashCode str < 2 ^ 31
  /\ hashCode str = toInt32 (poly31 str).
Proof.
  assert (Hr : - 2 ^ 31 <= hashCode str < 2 ^ 31).
  { apply hash_from_range. lia. }
  split; [exact Hr |].
  rewrite <- (toInt32_fixed Hr).
  unfold toInt32 at 1 2.
  unfold hashCode, poly31.
  rewrite (hash_from_mod str 0 0 eq_refl). reflexivity.
Qed.

Local Close Scope Z_scope.


(** ** The dictionary and the counters *)

Lemma Set_has_In (words : list string) (x : string) :
  Set_has words x = true -> In x words.
Proof.
  unfold Set_has. intros H. apply existsb_exists in H as (w & Hin & Heq).
  apply String.eqb_eq in Heq. now subst.
Qed.

Lemma positive_word_not_negative (w : string) :
  In w positiveWords -> hits negativeWords w = false.
Proof.
  intros H. unfold positiveWords in H. cbn [In] in H.
  repeat (destruct H as [<- | H]; [vm_compute; reflexivity |]). destruct H.
Qed.

Lemma negative_word_not_positive (w : string) :
  In w negativeWords -> hits positiveWords w = false.
Proof.
  intros H. unfold negativeWords in H. cbn [In] in H.
  repeat (destruct H as [<- | H]; [vm_compute; reflexivity |]). destruct H.
Qed.

Lemma hits_exclusive (token : string) :
  hits positiveWords token = true -> hits negativeWords token = false.
Proof.
  intros Hpos.
  destruct (hits negativeWords token) eqn:Hneg; [exfalso | reflexivity].
  unfold hits in Hpos, Hneg.
  apply orb_true_iff in Hpos. apply orb_true_iff in Hneg.
  destruct Hneg as [Hn | Hn]; apply Set_has_In in Hn.
  - apply negative_word_not_positive in Hn. unfold hits in Hn.
    apply orb_false_iff in Hn as [Hn1 Hn2].
    destruct Hpos; congruence.
  - destruct Hpos as [Hp | Hp]; apply Set_has_In in Hp.
    + apply positive_word_not_negative in Hp. unfold hits in Hp.
      apply orb_false_iff in Hp as [_ Hp2].
      assert (Htrue : Set_has negativeWords (stemWord token) = true).
      { unfold Set_has. apply existsb_exists. exists (stemWord token).
        split; [assumption | apply String.eqb_refl]. }
      congruence.
    + apply positive_word_not_negative in Hp. unfold hits in Hp.
      apply orb_false_iff in Hp as [Hp1 _].
      assert (Htrue : Set_has negativeWords (stemWord token) = true).
      { unfold Set_has. apply existsb_exists. exists (stemWord token).
        split; [assumption | apply String.eqb_refl]. }
      congruence.
Qed.

(** X5. No token counts as positive and as negative at once, whether
    it is matched as written or through its stem. *)
Theorem hits_positive_excludes_negative (token : string) :
  hits positiveWords token = true -> hits negativeWords token = false.
Proof. apply hits_exclusive; assumption. Qed.

Lemma hits_positive_excludes_negative_witness :
  hits positiveWords "delivered" = true /\ hits negativeWords "delivered" = false.
Proof.
  assert (Hpos : hits positiveWords "delivered" = true) by (vm_compute; reflexivity).
  split; [exact Hpos | exact (hits_positive_excludes_negative "delivered" Hpos)].
Defined.

Lemma count_token_step (c : Counts) (token : string) :
  (n_positive (count_token c token) + n_negative (count_token c token)
   <= S (n_positive c + n_negative c)
   /\ n_positive c <= n_positive (count_token c token)
   /\ n_negative c <= n_negative (count_token c token)
   /\ n_uncertainty (count_token c token) <= S (n_uncertainty c))%nat.
Proof.
  unfold count_token. cbn [n_positive n_negative n_uncertainty].
  pose proof (hits_exclusive token) as Hex.
  destruct (hits positiveWords token); destruct (hits negativeWords token);
    destruct (hits uncertaintyWords token);
    try (specialize (Hex eq_refl); discriminate); repeat split; lia.
Qed.

Lemma count_from_bounded (tokens : list string) :
  forall c : Counts,
    let c' := fold_left count_token tokens c in
    (n_positive c' + n_negative c' <= n_positive c + n_negative c + List.length tokens
     /\ n_uncertainty c' <= n_uncertainty c + List.length tokens)%nat.
Proof.
  induction tokens as [|token rest IH]; intros c; cbn [fold_left List.length].
  - cbn. lia.
  - specialize (IH (count_token c token)). cbn zeta in IH |- *.
    pose proof (count_token_step c token). lia.
Qed.

Lemma counters_bounded (tokens : list string) :
  (n_positive (count_tokens tokens) + n_negative (count_tokens tokens)
   <= List.length tokens
   /\ n_uncertainty (count_tokens tokens) <= List.length tokens)%nat.
Proof.
  unfold count_tokens.
  pose proof (count_from_bounded tokens
                {| n_positive := 0; n_negative := 0; n_uncertainty := 0 |}) as H.
  cbn zeta in H. cbn [n_positive n_negative n_uncertainty] in H. lia.
Qed.

(** X6. Of [n] tokens at most [n] are counted as positive or negative
    together, and at most [n] as uncertain. *)
Theorem count_tokens_bounded (tokens : list string) :
  (n_positive (count_tokens tokens) + n_negative (count_tokens tokens)
   <= List.length tokens
   /\ n_uncertainty (count_tokens tokens) <= List.length tokens)%nat.
Proof. apply counters_bounded; assumption. Qed.

(** ** Ranges of the sentiment record *)

Section SentimentRanges.
Local Open Scope Q_scope.

Lemma total_of_length (n : nat) :
  orElse (of_nat n) (int 1) == (if Nat.eqb n 0 then 1 else inject_Z (Z.of_nat n)).
Proof.
  unfold orElse, of_nat, int. cbn [truthy of_Z Number_Q].
  destruct n as [|n]; [reflexivity |].
  cbn [Nat.eqb].
  destruct (Qeq_bool (inject_Z (Z.of_nat (S n))) 0) eqn:E; cbn [negb]; [| reflexivity].
  apply Qeq_bool_iff in E. unfold Qeq in E. cbn in E. lia.
Qed.

Lemma count_le_total (k n : nat) :
  (k <= n)%nat -> of_nat k <= orElse (of_nat n) (int 1).
Proof.
  intros Hk. rewrite total_of_length. unfold of_nat. cbn [of_Z Number_Q].
  destruct n as [|n]; cbn [Nat.eqb].
  - assert (k = 0)%nat as -> by lia. discriminate.
  - rewrite <- Zle_Qle. lia.
Qed.

Lemma fraction_range (k n : nat) :
  (k <= n)%nat ->
  0 <= of_nat k / orElse (of_nat n) (int 1) * 100 <= 100.
Proof.
  intros Hk.
  pose proof (divisor_positive n) as Hpos.
  pose proof (count_le_total Hk) as Hle.
  assert (H0 : 0 <= of_nat (N := Q) k).
  { unfold of_nat. cbn [of_Z Number_Q]. change 0 with (inject_Z 0).
    rewrite <- Zle_Qle. lia. }
  set (t := orElse (of_nat n) (int 1)) in *.
  assert (Hx0 : 0 <= of_nat k / t).
  { apply Qle_shift_div_l; [assumption | lra]. }
  assert (Hx1 : of_nat k / t <= 1).
  { apply Qle_shift_div_r; [assumption | lra]. }
  split; lra.
Qed.

Lemma of_nat_plus (a b : nat) : of_nat (N := Q) (a + b) == of_nat a + of_nat b.
Proof.
  unfold of_nat. cbn [of_Z Number_Q]. rewrite Nat2Z.inj_add, inject_Z_plus. reflexivity.
Qed.

Lemma round2_range (x : Q) :
  0 <= x <= 100 -> 0 <= Qround_half_up (x * 100) / 100 <= 100.
Proof.
  intros [H0 H1]. split.
  - apply Qle_shift_div_l; [reflexivity |].
    apply (Qround_half_up_ge (z := 0)). change (inject_Z 0) with 0. lra.
  - apply Qle_shift_div_r; [reflexivity |].
    apply (Qround_half_up_le (z := 10000)). change (inject_Z 10000) with 10000. lra.
Qed.

Lemma Qmin_max_range (x : Q) : 0 <= Math_min 100 (Math_max 0 x) <= 100.
Proof.
  cbn [Math_min Math_max Number_Q].
  destruct (Qle_bool 0 x) eqn:E0.
  - apply Qle_bool_iff in E0.
    destruct (Qle_bool 100 x) eqn:E1; split; try lra.
    apply Qnot_lt_le. intros Hlt.
    assert (Hle : 100 <= x) by lra. apply Qle_bool_iff in Hle. congruence.
  - destruct (Qle_bool 100 0) eqn:E1; [discriminate E1 | split; lra].
Qed.

Lemma sentiment_ranges (tokens : list string) :
  let r := computeSentiment (N := Q) tokens in
  0 <= positive r <= 100 /\ 0 <= negative r <= 100
  /\ 0 <= neutral r <= 100 /\ 0 <= confidence r <= 100.
Proof.
  intros r. subst r.
  pose proof (counters_bounded tokens) as [Hpn Hu].
  set (c := count_tokens tokens) in *.
  assert (Hp : (n_positive c <= List.length tokens)%nat) by lia.
  assert (Hn : (n_negative c <= List.length tokens)%nat) by lia.
  pose proof (fraction_range Hp) as HP.
  pose proof (fraction_range Hn) as HN.
  pose proof (fraction_range Hpn) as HPN.
  cbn [computeSentiment positive negative neutral confidence].
  fold c. cbn [Math_round nadd nsub nmul ndiv Number_Q].
  change (int 100) with 100. change (int 0) with 0.
  set (t := orElse (of_nat (List.length tokens)) (int 1)) in *.
  set (P := of_nat (n_positive c) / t * 100) in *.
  set (Ng := of_nat (n_negative c) / t * 100) in *.
  assert (Hsum : P + Ng <= 100).
  { assert (Heq : of_nat (n_positive c + n_negative c) / t * 100 == P + Ng).
    { subst P Ng. rewrite of_nat_plus. unfold Qdiv. ring. }
    rewrite <- Heq. apply HPN. }
  repeat split; try apply round2_range; try apply Qmin_max_range; lra.
Qed.

(** X7. Every field of the sentiment record lies between 0 and 100;
    in particular the neutral value is never negative. *)
Theorem computeSentiment_ranges (tokens : list string) :
  let r := computeSentiment (N := Q) tokens in
  0 <= positive r <= 100 /\ 0 <= negative r <= 100
  /\ 0 <= neutral r <= 100 /\ 0 <= confidence r <= 100.
Proof. apply sentiment_ranges; assumption. Qed.

(** X8. Without a word of uncertainty the confidence is 100, whatever
    the balance of positive and negative words. *)
Theorem confidence_saturates (tokens : list string) :
  n_uncertainty (count_tokens tokens) = 0%nat ->
  confidence (computeSentiment (N := Q) tokens) == 100.
Proof.
  intros Hu.
  cbn [computeSentiment confidence]. rewrite Hu.
  cbn [Math_round Math_abs Math_min Math_max nadd nsub nmul ndiv Number_Q].
  change (int 100) with 100. change (int 0) with 0. change (int 10) with 10.
  change (of_nat 0) with 0.
  set (P := _ / _ * 100). set (Ng := _ / _ * 100).
  pose proof (Qabs_nonneg (P - Ng)) as Habs.
  assert (Hr : 100 <= Qround_half_up (Qabs (P - Ng) + (100 - 0 * 10))).
  { apply (Qround_half_up_ge (z := 100)). change (inject_Z 100) with 100. lra. }
  set (r := Qround_half_up _) in *.
  assert (E0 : Qle_bool 0 r = true) by (apply Qle_bool_iff; lra).
  rewrite E0.
  assert (E1 : Qle_bool 100 r = true) by (apply Qle_bool_iff; lra).
  rewrite E1. reflexivity.
Qed.

Lemma confidence_saturates_witness :
  n_uncertainty (count_tokens ["growth"; "risk"; "table"]) = 0%nat
  /\ confidence (computeSentiment (N := Q) ["growth"; "risk"; "table"]) == 100.
Proof.
  assert (Hu : n_uncertainty (count_tokens ["growth"; "risk"; "table"]) = 0%nat)
    by (vm_compute; reflexivity).
  split; [exact Hu | exact (confidence_saturates ["growth"; "risk"; "table"] Hu)].
Defined.
End SentimentRanges.


(** ** Sorting and the insertion-ordered map *)

Section SortByKey.
Variable A : Type.
Variable key : A -> nat.


Lemma sort_insert_perm (x : A) (l : list A) :
  Permutation (sort_insert (descending key) x l) (x :: l).
Proof.
  induction l as [|y l IH]; cbn; [reflexivity |].
  destruct (0 <? (descending key) y x)%Z; [reflexivity |].
  rewrite IH. apply perm_swap.
Qed.

Lemma Array_sort_from_perm (l : list A) :
  forall acc, Permutation (fold_left (fun sorted x => sort_insert (descending key) x sorted) l acc)
                          (acc ++ l)%list.
Proof.
  induction l as [|x l IH]; intros acc; cbn.
  - now rewrite app_nil_r.
  - rewrite IH, sort_insert_perm. apply Permutation_middle.
Qed.

Lemma Array_sort_perm (l : list A) : Permutation (Array_sort (descending key) l) l.
Proof. unfold Array_sort. apply (Array_sort_from_perm l []). Qed.

Lemma sort_insert_sorted (x : A) (l : list A) :
  StronglySorted (not_after key) l -> StronglySorted (not_after key) (sort_insert (descending key) x l).
Proof.
  induction l as [|y l IH]; intros Hs; cbn.
  - repeat constructor.
  - inversion Hs as [|? ? Hl Hy]; subst.
    destruct (0 <? (descending key) y x)%Z eqn:E.
    + apply Z.ltb_lt in E. unfold descending in E.
      constructor; [assumption |].
      constructor; [unfold not_after; lia |].
      rewrite Forall_forall in Hy |- *. intros z Hz.
      specialize (Hy z Hz). unfold not_after in *. lia.
    + apply Z.ltb_ge in E. unfold descending in E.
      constructor; [now apply IH |].
      rewrite Forall_forall in Hy |- *. intros z Hz.
      apply (Permutation_in _ (sort_insert_perm x l)) in Hz.
      destruct Hz as [<- | Hz]; [unfold not_after; lia | now apply Hy].
Qed.

Lemma Array_sort_sorted (l : list A) : StronglySorted (not_after key) (Array_sort (descending key) l).
Proof.
  unfold Array_sort.
  assert (H : forall acc, StronglySorted (not_after key) acc ->
                          StronglySorted (not_after key)
                            (fold_left (fun sorted x => sort_insert (descending key) x sorted) l acc)).
  { induction l as [|x l IH]; intros acc Hacc; cbn; [assumption |].
    apply IH. now apply sort_insert_sorted. }
  apply H. constructor.
Qed.
End SortByKey.

Lemma firstn_In {A : Type} (n : nat) (l : list A) (x : A) :
  In x (firstn n l) -> In x l.
Proof.
  intros H. rewrite <- (firstn_skipn n l). apply in_or_app. now left.
Qed.

Lemma StronglySorted_firstn {A : Type} (R : A -> A -> Prop) (n : nat) (l : list A) :
  StronglySorted R l -> StronglySorted R (firstn n l).
Proof.
  revert n. induction l as [|x l IH]; intros n Hs.
  - rewrite firstn_nil. constructor.
  - destruct n as [|n]; cbn; [constructor |].
    inversion Hs as [|? ? Hl Hx]; subst.
    constructor; [now apply IH |].
    rewrite Forall_forall in Hx |- *. intros z Hz.
    apply Hx. eapply firstn_In; eassumption.
Qed.

Lemma NoDup_firstn {A : Type} (n : nat) (l : list A) : NoDup l -> NoDup (firstn n l).
Proof.
  revert n. induction l as [|x l IH]; intros n Hnd.
  - rewrite firstn_nil. constructor.
  - destruct n as [|n]; cbn; [constructor |].
    inversion Hnd as [|? ? Hx Hl]; subst.
    constructor; [| now apply IH].
    intros Hin. apply Hx. eapply firstn_In; eassumption.
Qed.

Section MapLaws.
Variable V : Type.

(** Looking up after [set]: the new value at the key, the old one
    elsewhere. *)
Lemma Map_get_set (m : list (string * V)) (k k' : string) (v : V) :
  Map_get (Map_set m k v) k' = if String.eqb k k' then Some v else Map_get m k'.
Proof.
  induction m as [|[k0 w] m IH]; cbn.
  - destruct (String.eqb k k'); reflexivity.
  - destruct (String.eqb k0 k) eqn:E0; cbn.
    + apply String.eqb_eq in E0. subst k0.
      destruct (String.eqb k k'); reflexivity.
    + destruct (String.eqb k0 k') eqn:E1; [| apply IH].
      apply String.eqb_eq in E1. subst k0.
      rewrite String.eqb_sym in E0. now rewrite E0.
Qed.

Lemma Map_get_In (m : list (string * V)) (k : string) (v : V) :
  Map_get m k = Some v -> In (k, v) m.
Proof.
  induction m as [|[k0 w] m IH]; cbn; [discriminate |].
  destruct (String.eqb k0 k) eqn:E.
  - apply String.eqb_eq in E. intros [= ->]. left. now subst.
  - intros H. right. now apply IH.
Qed.

Lemma Map_get_None (m : list (string * V)) (k : string) :
  Map_get m k = None -> ~ In k (map fst m).
Proof.
  induction m as [|[k0 w] m IH]; cbn; [tauto |].
  destruct (String.eqb k0 k) eqn:E; [discriminate |].
  apply String.eqb_neq in E. intros H [Heq | Hin]; [congruence | now apply IH].
Qed.

Lemma In_Map_get (m : list (string * V)) (k : string) (v : V) :
  NoDup (map fst m) -> In (k, v) m -> Map_get m k = Some v.
Proof.
  induction m as [|[k0 w] m IH]; cbn; [tauto |].
  intros Hnd Hin. inversion Hnd as [|? ? Hk0 Hm]; subst.
  destruct Hin as [[= -> ->] | Hin].
  - now rewrite String.eqb_refl.
  - destruct (String.eqb k0 k) eqn:E; [| now apply IH].
    apply String.eqb_eq in E. subst k0. exfalso. apply Hk0.
    change k with (fst (k, v)). now apply in_map.
Qed.

Lemma Map_set_keys (m : list (string * V)) (k : string) (v : V) :
  map fst (Map_set m k v)
  = if existsb (String.eqb k) (map fst m) then map fst m else (map fst m ++ [k])%list.
Proof.
  induction m as [|[k0 w] m IH]; cbn; [reflexivity |].
  rewrite (String.eqb_sym k k0).
  destruct (String.eqb k0 k); cbn; [reflexivity |].
  rewrite IH. destruct (existsb (String.eqb k) (map fst m)); reflexivity.
Qed.

Lemma Map_set_NoDup (m : list (string * V)) (k : string) (v : V) :
  NoDup (map fst m) -> NoDup (map fst (Map_set m k v)).
Proof.
  intros Hnd. rewrite Map_set_keys.
  destruct (existsb (String.eqb k) (map fst m)) eqn:E; [assumption |].
  apply NoDup_app; [assumption | repeat constructor; intros [] | ].
  intros x Hx [Heq | []]. subst x.
  assert (existsb (String.eqb k) (map fst m) = true).
  { apply existsb_exists. exists k. split; [assumption | apply String.eqb_refl]. }
  congruence.
Qed.
End MapLaws.


Lemma fold_left_invariant {A B : Type} (f : A -> B -> A) (P : A -> Prop) (Q : B -> Prop)
      (l : list B) :
  (forall a b, P a -> Q b -> P (f a b)) ->
  (forall b, In b l -> Q b) ->
  forall a, P a -> P (fold_left f l a).
Proof.
  intros Hstep. induction l as [|b l IH]; intros HQ a Ha; cbn; [assumption |].
  apply IH.
  - intros b' Hb'. apply HQ. now right.
  - apply Hstep; [assumption | apply HQ; now left].
Qed.

Lemma NoDup_map_filter {A B : Type} (g : A -> B) (f : A -> bool) (l : list A) :
  NoDup (map g l) -> NoDup (map g (filter f l)).
Proof.
  induction l as [|x l IH]; cbn; intros Hnd; [constructor |].
  inversion Hnd as [|? ? Hx Hl]; subst.
  destruct (f x); cbn; [| now apply IH].
  constructor; [| now apply IH].
  intros Hin. apply Hx. apply in_map_iff in Hin as (y & Hy & Hin).
  apply filter_In in Hin as [Hin _]. apply in_map_iff. now exists y.
Qed.

Lemma StronglySorted_map {A B : Type} (R : B -> B -> Prop) (g : A -> B) (l : list A) :
  StronglySorted (fun a b => R (g a) (g b)) l -> StronglySorted R (map g l).
Proof.
  induction 1 as [|x l Hs IH Hx]; cbn; constructor; [assumption |].
  rewrite Forall_forall in Hx |- *. intros y Hy.
  apply in_map_iff in Hy as (z & <- & Hz). now apply Hx.
Qed.

Lemma StronglySorted_weaken {A : Type} (R R' : A -> A -> Prop) (l : list A) :
  (forall a b, In a l -> In b l -> R a b -> R' a b) ->
  StronglySorted R l -> StronglySorted R' l.
Proof.
  intros Himp Hs. induction Hs as [|x l Hs IH Hx]; constructor.
  - apply IH. intros a b Ha Hb. apply Himp; now right.
  - rewrite Forall_forall in Hx |- *. intros y Hy.
    apply Himp; [now left | now right | now apply Hx].
Qed.

(** ** Key phrases *)

Lemma bump_count (freq : list (string * nat)) (bigram k : string) :
  lookup_count (bump freq bigram) k
  = (lookup_count freq k + if string_dec bigram k then 1 else 0)%nat.
Proof.
  unfold bump, lookup_count. rewrite Map_get_set.
  destruct (string_dec bigram k) as [-> | Hne].
  - rewrite String.eqb_refl. reflexivity.
  - apply String.eqb_neq in Hne. rewrite Hne. lia.
Qed.

(** The frequency table holds, for every key, the number of its
    occurrences. *)
Lemma frequency_count (l : list string) :
  forall (freq : list (string * nat)) (k : string),
    lookup_count (fold_left bump l freq) k
    = (lookup_count freq k + count_occ string_dec l k)%nat.
Proof.
  induction l as [|b l IH]; intros freq k; cbn [fold_left count_occ]; [lia |].
  rewrite IH, bump_count. destruct (string_dec b k); lia.
Qed.

Lemma frequency_NoDup (l : list string) :
  forall freq : list (string * nat),
    NoDup (map fst freq) -> NoDup (map fst (fold_left bump l freq)).
Proof.
  induction l as [|b l IH]; intros freq Hnd; cbn [fold_left]; [assumption |].
  apply IH. unfold bump. now apply Map_set_NoDup.
Qed.

Lemma frequency_entry (l : list string) (k : string) (n : nat) :
  In (k, n) (fold_left bump l []) -> n = count_occ string_dec l k.
Proof.
  intros Hin.
  apply In_Map_get in Hin; [| apply frequency_NoDup; constructor].
  pose proof (frequency_count l [] k) as Hc.
  unfold lookup_count in Hc at 1. rewrite Hin in Hc. cbn in Hc. exact Hc.
Qed.

(** X9. The key phrases are at most eight different bigrams, each
    longer than six characters and occurring at least twice among the
    adjacent token pairs, listed by non-increasing number of
    occurrences. *)
Theorem extractKeyPhrases_sound (tokens : list string) :
  let phrases := extractKeyPhrases tokens in
  (List.length phrases <= 8)%nat
  /\ NoDup phrases
  /\ (forall p, In p phrases ->
                (2 <= occurrences tokens p)%nat /\ (6 < String.length p)%nat)
  /\ StronglySorted (not_after (occurrences tokens)) phrases.
Proof.
  intros phrases. subst phrases. unfold extractKeyPhrases, slice0.
  set (freq := fold_left bump (bigrams tokens) []).
  set (keep := fun e : string * nat => ((1 <? snd e) && (6 <? String.length (fst e)))%nat).
  set (cmp := fun a b : string * nat => (Z.of_nat (snd b) - Z.of_nat (snd a))%Z).
  change cmp with (descending (@snd string nat)).
  set (sorted := Array_sort (descending (@snd string nat)) (filter keep freq)).
  assert (Hperm : Permutation sorted (filter keep freq)) by apply Array_sort_perm.
  assert (Hentry : forall e, In e (firstn 8 sorted) ->
                             In e freq /\ keep e = true
                             /\ snd e = occurrences tokens (fst e)).
  { intros e He. apply firstn_In in He.
    apply (Permutation_in _ Hperm) in He. apply filter_In in He as [He Hk].
    repeat split; try assumption.
    destruct e as [k n]. apply (frequency_entry _ _ _ He). }
  repeat split.
  - rewrite length_map. apply firstn_le_length.
  - rewrite <- firstn_map. apply NoDup_firstn.
    apply (Permutation_NoDup (Permutation_sym (Permutation_map fst Hperm))).
    apply NoDup_map_filter. apply frequency_NoDup. constructor.
  - apply in_map_iff in H as (e & <- & He).
    destruct (Hentry e He) as (_ & Hk & Hn).
    unfold keep in Hk. apply andb_true_iff in Hk as [Hk _].
    apply Nat.ltb_lt in Hk. lia.
  - apply in_map_iff in H as (e & <- & He).
    destruct (Hentry e He) as (_ & Hk & _).
    unfold keep in Hk. apply andb_true_iff in Hk as [_ Hk].
    now apply Nat.ltb_lt in Hk.
  - apply StronglySorted_map.
    apply StronglySorted_weaken with (R := not_after (@snd string nat)).
    + intros a b Ha Hb Hab. unfold not_after in *.
      destruct (Hentry a Ha) as (_ & _ & <-).
      destruct (Hentry b Hb) as (_ & _ & <-). exact Hab.
    + apply StronglySorted_firstn. apply Array_sort_sorted.
Qed.

Lemma bigrams_In (tokens : list string) (p : string) :
  In p (bigrams tokens) ->
  exists a b, In a tokens /\ In b tokens /\ p = a ++ " " ++ b.
Proof.
  induction tokens as [|a rest IH]; [intros [] |].
  destruct rest as [|b rest]; [intros [] |].
  cbn [bigrams In]. intros [<- | Hin].
  - exists a, b. cbn. tauto.
  - destruct (IH Hin) as (x & y & Hx & Hy & ->).
    exists x, y. split; [now right | split; [now right | reflexivity]].
Qed.

(** X10. On tokenized text every pair of adjacent tokens is longer
    than six characters: the length condition of [extractKeyPhrases]
    excludes nothing there. *)
Theorem tokenized_bigrams_are_long (text p : string) :
  In p (bigrams (tokenize text)) -> (6 < String.length p)%nat.
Proof.
  intros Hin. apply bigrams_In in Hin as (a & b & Ha & Hb & ->).
  apply tokens_are_words in Ha as [Ha _].
  apply tokens_are_words in Hb as [Hb _].
  rewrite !append_length. cbn. lia.
Qed.

Lemma tokenized_bigrams_are_long_witness :
  In "cash flow" (bigrams (tokenize "Cash flow is up."))
  /\ (6 < String.length "cash flow")%nat.
Proof.
  assert (Hin : In "cash flow" (bigrams (tokenize "Cash flow is up.")))
    by (vm_compute; left; reflexivity).
  split; [exact Hin | exact (tokenized_bigrams_are_long "Cash flow is up." "cash flow" Hin)].
Defined.


(** ** Entities *)

Lemma Map_set_In {V : Type} (m : list (string * V)) (k : string) (v : V) (e : string * V) :
  In e (Map_set m k v) -> e = (k, v) \/ In e m.
Proof.
  induction m as [|[k0 w] m IH]; cbn.
  - intros [<- | []]. now left.
  - destruct (String.eqb k0 k) eqn:E; cbn.
    + apply String.eqb_eq in E. subst k0. intros [<- | Hin]; [now left | now right; right].
    + intros [<- | Hin]; [now right; left |].
      destruct (IH Hin) as [-> | Hin']; [now left | now right; right].
Qed.

(** What holds of every entry of the entity table: it was counted at
    least once, and its name is the trimmed text of a match of a
    pattern whose type it carries. *)
Lemma record_match_entries (text : string) (p : RegExp * string) (m : string)
      (ents : list (string * (string * nat))) :
  In p patterns -> In m (match_all (fst p) text) ->
  (forall e, In e ents ->
             (1 <= snd (snd e))%nat
             /\ exists q m', In q patterns /\ In m' (match_all (fst q) text)
                             /\ fst e = trim m' /\ fst (snd e) = snd q) ->
  forall e, In e (record_match (snd p) ents m) ->
            (1 <= snd (snd e))%nat
            /\ exists q m', In q patterns /\ In m' (match_all (fst q) text)
                            /\ fst e = trim m' /\ fst (snd e) = snd q.
Proof.
  intros Hp Hm Hinv e He. unfold record_match in He.
  destruct (Map_get ents (trim m)) as [[ty0 n] |] eqn:Eget.
  - apply Map_set_In in He as [-> | He]; [| now apply Hinv].
    apply Map_get_In in Eget. destruct (Hinv _ Eget) as (_ & q & m' & Hq & Hm' & Hk & Hty).
    cbn in *. split; [lia |]. exists q, m'. auto.
  - apply Map_set_In in He as [-> | He]; [| now apply Hinv].
    cbn. split; [lia |]. exists p, m. auto.
Qed.

Lemma record_match_NoDup (ty m : string) (ents : list (string * (string * nat))) :
  NoDup (map fst ents) -> NoDup (map fst (record_match ty ents m)).
Proof.
  intros Hnd. unfold record_match.
  destruct (Map_get ents (trim m)) as [[ty0 n] |]; now apply Map_set_NoDup.
Qed.

(** X11. The entities are at most ten, with different names, each
    counted at least once and named after the trimmed text of a match of
    the pattern whose type it carries; they are listed by non-increasing
    count. *)
Theorem extractEntities_sound (text : string) :
  let found := extractEntities text in
  (List.length found <= 10)%nat
  /\ NoDup (map name found)
  /\ (forall e, In e found ->
                (1 <= count e)%nat
                /\ exists p m, In p patterns /\ In m (match_all (fst p) text)
                               /\ name e = trim m /\ type e = snd p)
  /\ StronglySorted (not_after count) found.
Proof.
  intros found. subst found. unfold extractEntities, slice0.
  set (ents := fold_left _ patterns []).
  set (mk := fun e : string * (string * nat) =>
               {| name := fst e; type := fst (snd e); count := snd (snd e) |}).
  set (cmp := fun a b : Entity => (Z.of_nat (count b) - Z.of_nat (count a))%Z).
  change cmp with (descending count).
  assert (Hinv : (forall e, In e ents ->
                            (1 <= snd (snd e))%nat
                            /\ exists q m', In q patterns /\ In m' (match_all (fst q) text)
                                            /\ fst e = trim m' /\ fst (snd e) = snd q)
                 /\ NoDup (map fst ents)).
  { subst ents.
    apply fold_left_invariant with (Q := fun p => In p patterns).
    - intros a p [Ha Hnd] Hp.
      apply fold_left_invariant with (Q := fun m => In m (match_all (fst p) text)).
      + intros a' m [Ha' Hnd'] Hm. split.
        * now apply record_match_entries.
        * now apply record_match_NoDup.
      + auto.
      + split; assumption.
    - auto.
    - split; [intros e [] | constructor]. }
  destruct Hinv as [Hinv Hnd].
  assert (Hperm : Permutation (Array_sort (descending count) (map mk ents)) (map mk ents))
    by apply Array_sort_perm.
  assert (Hnames : map name (map mk ents) = map fst ents).
  { rewrite map_map. apply map_ext. intros e. reflexivity. }
  repeat split.
  - apply firstn_le_length.
  - rewrite <- firstn_map. apply NoDup_firstn.
    apply (Permutation_NoDup (Permutation_sym (Permutation_map name Hperm))).
    now rewrite Hnames.
  - apply firstn_In in H. apply (Permutation_in _ Hperm) in H.
    apply in_map_iff in H as (x & <- & Hx). apply (Hinv x Hx).
  - apply firstn_In in H. apply (Permutation_in _ Hperm) in H.
    apply in_map_iff in H as (x & <- & Hx).
    destruct (Hinv x Hx) as (_ & q & m' & Hq & Hm' & Hk & Hty).
    exists q, m'. cbn. auto.
  - apply StronglySorted_firstn. apply Array_sort_sorted.
Qed.


(** ** Scores and random numbers *)

Ltac split_ticker ticker :=
  repeat match goal with
         | |- context [String.eqb ?k ticker] =>
             let E := fresh "E" in
             destruct (String.eqb k ticker) eqn:E;
             [apply String.eqb_eq in E; subst ticker |]
         end.

Ltac qconst :=
  vm_compute; first [reflexivity | discriminate | (let Hc := fresh in intro Hc; discriminate Hc)].

Section ScoreTables.
Context {N : Type} `{Number N}.

Lemma listed_tables (ticker : string) :
  if listed ticker
  then Map_get (fundamentals (N := N)) ticker <> None
       /\ Map_get (technicals (N := N)) ticker <> None
  else Map_get (fundamentals (N := N)) ticker = None
       /\ Map_get (technicals (N := N)) ticker = None.
Proof.
  unfold listed, fundamentals, technicals. cbn [existsb Map_get].
  rewrite !(String.eqb_sym ticker).
  split_ticker ticker; cbn; split; (reflexivity || discriminate).
Qed.

(** The names of [Object.prototype] are none of the tickers: a table
    gives a number for a ticker of its own, the inherited member for
    such a name, and nothing else. *)
Lemma property_cases (ticker : string) :
  if listed ticker
  then (exists v, property (N := N) fundamentals ticker = Some (Num v))
       /\ (exists v, property (N := N) technicals ticker = Some (Num v))
  else if Set_has Object_prototype ticker
       then property (N := N) fundamentals ticker = Some (Member ticker)
            /\ property (N := N) technicals ticker = Some (Member ticker)
       else property (N := N) fundamentals ticker = None
            /\ property (N := N) technicals ticker = None.
Proof.
  pose proof (listed_tables ticker) as Htab. unfold property.
  destruct (listed ticker).
  - destruct Htab as [Hf Ht].
    destruct (Map_get fundamentals ticker) as [f |]; [| congruence].
    destruct (Map_get technicals ticker) as [t |]; [| congruence].
    split; eauto.
  - destruct Htab as [-> ->].
    destruct (Set_has Object_prototype ticker); split; reflexivity.
Qed.

Lemma signal_draws (ticker : string) (nlpResult : NLPResult N) (g : Rng N) :
  if listed ticker || Set_has Object_prototype ticker
  then snd (generateSignal ticker nlpResult g) = g
       /\ forall g' : Rng N,
           run (generateSignal ticker nlpResult) g' = run (generateSignal ticker nlpResult) g
  else snd (generateSignal ticker nlpResult g) = advance 2 g.
Proof.
  pose proof (property_cases ticker) as Htab.
  unfold generateSignal, computeFundamentalScore, computeTechnicalScore, run, bind, ret.
  destruct (listed ticker); cbn [orb].
  - destruct Htab as [[f ->] [t ->]].
    split; [reflexivity | intros g'; reflexivity].
  - destruct (Set_has Object_prototype ticker).
    + destruct Htab as [-> ->].
      split; [reflexivity | intros g'; reflexivity].
    + destruct Htab as [-> ->]. unfold Math_random, advance. cbn.
      f_equal. lia.
Qed.

(** X12. For a ticker of the tables, and for a ticker that names a
    member of [Object.prototype], [generateSignal] draws no random
    number and its signal does not depend on the generator; for any
    other ticker it draws exactly two. *)
Theorem generateSignal_draws (ticker : string) (nlpResult : NLPResult N) (g : Rng N) :
  if listed ticker || Set_has Object_prototype ticker
  then snd (generateSignal ticker nlpResult g) = g
       /\ forall g' : Rng N,
           run (generateSignal ticker nlpResult) g' = run (generateSignal ticker nlpResult) g
  else snd (generateSignal ticker nlpResult g) = advance 2 g.
Proof. apply signal_draws; assumption. Qed.
End ScoreTables.

Section ScoreRanges.
Local Open Scope Q_scope.

Lemma score_ranges (ticker : string) (g : Rng Q) :
  Set_has Object_prototype ticker = false ->
  unit_draws g ->
  let f := ToNumber (fst (computeFundamentalScore ticker g)) in
  let t := ToNumber (fst (computeTechnicalScore ticker
                            (snd (computeFundamentalScore ticker g)))) in
  0.45 <= f <= 0.9 /\ 0.35 <= t <= 0.91
  /\ 0.2625 <= 0.35 * f + 0.30 * t <= 0.585.
Proof.
  intros Hown Hdraws f t. subst f t.
  unfold computeFundamentalScore, computeTechnicalScore, property, fundamentals, technicals.
  cbn [Map_get].
  split_ticker ticker; cbn [Map_get fst snd ret ToNumber];
    try (repeat split; qconst).
  rewrite Hown.
  unfold bind, ret, Math_random. cbn [fst snd draws cursor ToNumber nadd nmul Number_Q].
  change (dec 5 1) with 0.5. change (dec 4 1) with 0.4.
  pose proof (Hdraws (cursor g)) as [Ha1 Ha2].
  pose proof (Hdraws (S (cursor g))) as [Hb1 Hb2].
  repeat split; lra.
Qed.

(** X13. For a ticker that names no member of [Object.prototype],
    with draws in [0,1), the fundamental score is a number in
    [0.45, 0.9] and the technical score one in [0.35, 0.91]; their
    weighted sum lies in [0.2625, 0.585]. *)
Theorem scores_in_unit_interval (ticker : string) (g : Rng Q) :
  Set_has Object_prototype ticker = false ->
  unit_draws g ->
  (exists f t : Q,
      fst (computeFundamentalScore ticker g) = Num f
      /\ fst (computeTechnicalScore ticker (snd (computeFundamentalScore ticker g))) = Num t
      /\ 0.45 <= f <= 0.9 /\ 0.35 <= t <= 0.91
      /\ 0.2625 <= 0.35 * f + 0.30 * t <= 0.585).
Proof.
  intros Hown Hdraws.
  pose proof (score_ranges ticker Hown Hdraws) as Hr. cbn zeta in Hr.
  pose proof (property_cases (N := Q) ticker) as Htab. rewrite Hown in Htab.
  unfold computeFundamentalScore, computeTechnicalScore in *.
  destruct (listed ticker).
  - destruct Htab as [[f Hf] [t Ht]]. rewrite Hf, Ht in *.
    exists f, t. cbn [ret fst snd ToNumber] in *. repeat split; try reflexivity; apply Hr.
  - destruct Htab as [Hf Ht]. rewrite Hf, Ht in *.
    unfold bind, ret, Math_random in *. cbn [fst snd ToNumber] in *.
    eexists _, _. split; [reflexivity | split; [reflexivity | exact Hr]].
Qed.

Lemma scores_in_unit_interval_witness :
  Set_has Object_prototype "XYZ" = false
  /\ unit_draws (constant_rng 0.5)
  /\ (exists f t : Q,
         fst (computeFundamentalScore "XYZ" (constant_rng 0.5)) = Num f
         /\ fst (computeTechnicalScore "XYZ"
                   (snd (computeFundamentalScore "XYZ" (constant_rng 0.5)))) = Num t
         /\ 0.45 <= f <= 0.9 /\ 0.35 <= t <= 0.91
         /\ 0.2625 <= 0.35 * f + 0.30 * t <= 0.585).
Proof.
  assert (Hown : Set_has Object_prototype "XYZ" = false) by reflexivity.
  assert (Hd : unit_draws (constant_rng 0.5)).
  { intros i. cbn. split; [discriminate | reflexivity]. }
  split; [exact Hown | split; [exact Hd |]].
  exact (@scores_in_unit_interval "XYZ" _ Hown Hd).
Defined.
End ScoreRanges.


(** ** Decision, confidence and reasons *)

Section DecisionAndConfidence.
Local Open Scope Q_scope.

Lemma confidence_of_composite (ticker : string) (s f t : Q) :
  s_confidence (assemble ticker s f t)
  = Qround_half_up (Qabs (compositeScore s f t - 0.5) * 200).
Proof. reflexivity. Qed.

(** X14. For a ticker that names no member of [Object.prototype], a
    HOLD never has a confidence above 30, a BUY never one below 30, a
    SELL never one below 20. *)
Theorem decision_bounds_confidence (ticker : string) (nlpResult : NLPResult Q) (g : Rng Q) :
  Set_has Object_prototype ticker = false ->
  let sg := run (generateSignal ticker nlpResult) g in
  (signal sg = HOLD -> s_confidence sg <= 30)
  /\ (signal sg = BUY -> 30 <= s_confidence sg)
  /\ (signal sg = SELL -> 20 <= s_confidence sg).
Proof.
  intros _ sg. subst sg.
  destruct (generateSignal_assemble ticker nlpResult g) as (f & t & -> & _).
  rewrite confidence_of_composite. cbn [assemble signal].
  rewrite classify_decision.
  set (c := compositeScore _ f t).
  cbn [ngeb Number_Q]. change (dec 65 2) with 0.65. change (dec 40 2) with 0.40.
  pose proof (Qle_Qabs (c - 0.5)) as Hup.
  pose proof (Qle_Qabs (- (c - 0.5))) as Hdown. rewrite Qabs_opp in Hdown.
  destruct (Qle_bool 0.65 c) eqn:E65.
  - apply Qle_bool_iff in E65.
    repeat split; intros Hd; try discriminate Hd.
    apply (Qround_half_up_ge (z := 30)). change (inject_Z 30) with 30. lra.
  - assert (H65 : c < 0.65).
    { apply Qnot_le_lt. intros Hle. apply Qle_bool_iff in Hle. congruence. }
    destruct (Qle_bool 0.40 c) eqn:E40.
    + apply Qle_bool_iff in E40.
      repeat split; intros Hd; try discriminate Hd.
      apply (Qround_half_up_le (z := 30)). change (inject_Z 30) with 30.
      assert (Habs : Qabs (c - 0.5) <= 0.15) by (apply Qabs_Qle_condition; split; lra).
      lra.
    + assert (H40 : c < 0.40).
      { apply Qnot_le_lt. intros Hle. apply Qle_bool_iff in Hle. congruence. }
      repeat split; intros Hd; try discriminate Hd.
      apply (Qround_half_up_ge (z := 20)). change (inject_Z 20) with 20. lra.
Qed.

Lemma decision_bounds_confidence_witness :
  Set_has Object_prototype "TSLA" = false
  /\ (let sg := run (generateSignal "TSLA" (with_scores 2.04 12.24)) (constant_rng 0.5) in
      (signal sg = HOLD -> s_confidence sg <= 30)
      /\ (signal sg = BUY -> 30 <= s_confidence sg)
      /\ (signal sg = SELL -> 20 <= s_confidence sg)).
Proof.
  assert (Hown : Set_has Object_prototype "TSLA" = false) by reflexivity.
  split; [exact Hown |].
  exact (@decision_bounds_confidence "TSLA" (with_scores 2.04 12.24) (constant_rng 0.5) Hown).
Defined.

Lemma round100_range (lo hi : Z) (x : Q) :
  inject_Z lo <= x * 100 <= inject_Z hi ->
  inject_Z lo <= Qround_half_up (x * 100) <= inject_Z hi.
Proof.
  intros [H0 H1]. split; [now apply Qround_half_up_ge | now apply Qround_half_up_le].
Qed.

(** The signal for given sentiment scores. *)
Lemma signal_ranges (ticker : string) (nlpResult : NLPResult Q) (g : Rng Q) (lo hi b : Q) :
  Set_has Object_prototype ticker = false ->
  unit_draws g ->
  lo <= sentimentScore nlpResult <= hi ->
  0.35 * hi + 0.085 <= b -> 0.2375 - 0.35 * lo <= b ->
  let sg := run (generateSignal ticker nlpResult) g in
  Qabs (run (compositeOf ticker nlpResult) g - 0.5) <= b
  /\ 45 <= c_fundamental (components sg) <= 90
  /\ 35 <= c_technical (components sg) <= 91.
Proof.
  intros Hown Hdraws Hs Hb1 Hb2 sg. subst sg.
  pose proof (score_ranges ticker Hown Hdraws) as Hft. cbn zeta in Hft.
  unfold generateSignal, compositeOf, run, bind, ret.
  destruct (computeFundamentalScore ticker g) as [f g1]. cbn [fst snd] in Hft.
  destruct (computeTechnicalScore ticker g1) as [t g2].
  cbn [fst snd] in Hft |- *. destruct Hft as (Hf & Ht & Hw).
  cbn [assemble components c_fundamental c_technical Math_round nmul Number_Q].
  change (int 100) with 100.
  split; [| split].
  - unfold compositeScore, w_sentiment, w_fundamental, w_technical.
    cbn [nadd nmul Number_Q].
    change (dec 35 2) with 0.35. change (dec 30 2) with 0.30.
    set (s := sentimentScore nlpResult) in *.
    apply Qabs_Qle_condition. split; lra.
  - apply (round100_range (lo := (45)%Z) (hi := 90%Z)). change (inject_Z 45) with 45.
    change (inject_Z 90) with 90. lra.
  - apply (round100_range (lo := (35)%Z) (hi := 91%Z)). change (inject_Z 35) with 35.
    change (inject_Z 91) with 91. lra.
Qed.

Lemma text_signal_ranges
        (Math_sin Math_sqrt : Q -> Q) (text ticker : string) (g : Rng Q) :
  Set_has Object_prototype ticker = false ->
  unit_draws g ->
  let sg := run (generateSignal ticker (analyze Math_sin Math_sqrt text)) g in
  0 <= s_confidence sg <= 122
  /\ -50 <= c_sentiment (components sg) <= 150
  /\ 45 <= c_fundamental (components sg) <= 90
  /\ 35 <= c_technical (components sg) <= 91.
Proof.
  intros Hown Hdraws sg.
  set (nlp := analyze Math_sin Math_sqrt text) in *.
  pose proof (sentiment_ranges (tokenize text)) as (Hp & Hn & _ & _).
  cbn zeta in Hp, Hn.
  assert (Hs : -0.5 <= sentimentScore nlp <= 1.5).
  { unfold sentimentScore, nlp. cbn [analyze sentiment nadd nsub ndiv Number_Q].
    change (int 50) with 50. change (int 100) with 100.
    unfold Qdiv. change (/ 100) with (1 # 100). split; lra. }
  assert (Hb1 : 0.35 * 1.5 + 0.085 <= 0.61) by discriminate.
  assert (Hb2 : 0.2375 - 0.35 * -0.5 <= 0.61) by discriminate.
  pose proof (@signal_ranges ticker nlp g _ _ _ Hown Hdraws Hs Hb1 Hb2) as (Hc & Hf & Ht).
  fold sg in Hf, Ht.
  destruct (generateSignal_assemble ticker nlp g) as (f & t & Hsg & Hcomp).
  rewrite Hcomp in Hc.
  assert (Hconf : s_confidence sg = Qround_half_up (Qabs (compositeScore (sentimentScore nlp) f t - 0.5) * 200)).
  { subst sg. rewrite Hsg. reflexivity. }
  assert (Hsent : c_sentiment (components sg) = Qround_half_up (sentimentScore nlp * 100)).
  { subst sg. rewrite Hsg. reflexivity. }
  rewrite Hconf, Hsent.
  split; [split | split; [| split; assumption]].
  - apply (Qround_half_up_ge (z := 0)). change (inject_Z 0) with 0.
    pose proof (Qabs_nonneg (compositeScore (sentimentScore nlp) f t - 0.5)). lra.
  - apply (Qround_half_up_le (z := 122)). change (inject_Z 122) with 122.
    lra.
  - apply (round100_range (lo := (-50)%Z) (hi := 150%Z)). change (inject_Z (-50)) with (-50).
    change (inject_Z 150) with 150. lra.
Qed.

(** X15. Whatever the text, for a ticker that names no member of
    [Object.prototype] and with draws in [0,1), the confidence of the
    generated signal lies in [0,122], its sentiment component in
    [-50,150], its fundamental component in [45,90] and its technical
    component in [35,91]. *)
Theorem pipeline_signal_ranges
        (Math_sin Math_sqrt : Q -> Q) (text ticker : string) (g : Rng Q) :
  Set_has Object_prototype ticker = false ->
  unit_draws g ->
  let sg := run (generateSignal ticker (analyze Math_sin Math_sqrt text)) g in
  0 <= s_confidence sg <= 122
  /\ -50 <= c_sentiment (components sg) <= 150
  /\ 45 <= c_fundamental (components sg) <= 90
  /\ 35 <= c_technical (components sg) <= 91.
Proof. apply text_signal_ranges; assumption. Qed.

Lemma pipeline_signal_ranges_witness :
  Set_has Object_prototype "NVDA" = false
  /\ unit_draws (constant_rng 0.5)
  /\ (let sg := run (generateSignal "NVDA" (analyze (fun x => x) (fun x => x) all_growth))
                    (constant_rng 0.5) in
      0 <= s_confidence sg <= 122
      /\ -50 <= c_sentiment (components sg) <= 150
      /\ 45 <= c_fundamental (components sg) <= 90
      /\ 35 <= c_technical (components sg) <= 91).
Proof.
  assert (Hd : unit_draws (constant_rng 0.5)).
  { intros i. cbn. split; [discriminate | reflexivity]. }
  assert (Hown : Set_has Object_prototype "NVDA" = false) by reflexivity.
  split; [exact Hown | split; [exact Hd |]].
  exact (@pipeline_signal_ranges (fun x => x) (fun x => x) all_growth "NVDA" _ Hown Hd).
Defined.

(** X16. For a ticker that names no member of [Object.prototype] and
    with draws in [0,1): when positive - negative lies within [-50, 50]
    the sentiment component lies in [0,100] and the confidence is at
    most 87. *)
Theorem balanced_sentiment_confidence
        (ticker : string) (nlpResult : NLPResult Q) (g : Rng Q) :
  Set_has Object_prototype ticker = false ->
  unit_draws g ->
  -50 <= positive (sentiment nlpResult) - negative (sentiment nlpResult) <= 50 ->
  let sg := run (generateSignal ticker nlpResult) g in
  0 <= c_sentiment (components sg) <= 100 /\ 0 <= s_confidence sg <= 87.
Proof.
  intros Hown Hdraws Hpn sg.
  assert (Hs : 0 <= sentimentScore nlpResult <= 1).
  { unfold sentimentScore. cbn [nadd nsub ndiv Number_Q].
    change (int 50) with 50. change (int 100) with 100.
    unfold Qdiv. change (/ 100) with (1 # 100). split; lra. }
  assert (Hb1 : 0.35 * 1 + 0.085 <= 0.435) by discriminate.
  assert (Hb2 : 0.2375 - 0.35 * 0 <= 0.435) by discriminate.
  pose proof (@signal_ranges ticker nlpResult g _ _ _ Hown Hdraws Hs Hb1 Hb2) as (Hc & _ & _).
  destruct (generateSignal_assemble ticker nlpResult g) as (f & t & Hsg & Hcomp).
  rewrite Hcomp in Hc.
  assert (Hconf : s_confidence sg = Qround_half_up (Qabs (compositeScore (sentimentScore nlpResult) f t - 0.5) * 200)).
  { subst sg. rewrite Hsg. reflexivity. }
  assert (Hsent : c_sentiment (components sg) = Qround_half_up (sentimentScore nlpResult * 100)).
  { subst sg. rewrite Hsg. reflexivity. }
  rewrite Hconf, Hsent.
  pose proof (Qabs_nonneg (compositeScore (sentimentScore nlpResult) f t - 0.5)).
  repeat split.
  - apply (round100_range (lo := (0)%Z) (hi := 100%Z)). change (inject_Z 0) with 0.
    change (inject_Z 100) with 100. lra.
  - apply (round100_range (lo := (0)%Z) (hi := 100%Z)). change (inject_Z 0) with 0.
    change (inject_Z 100) with 100. lra.
  - apply (Qround_half_up_ge (z := 0)). change (inject_Z 0) with 0. lra.
  - apply (Qround_half_up_le (z := 87)). change (inject_Z 87) with 87. lra.
Qed.

Lemma balanced_sentiment_confidence_witness :
  Set_has Object_prototype "AAPL" = false
  /\ unit_draws (constant_rng 0.5)
  /\ -50 <= positive (sentiment (with_scores 12.24 2.04))
            - negative (sentiment (with_scores 12.24 2.04)) <= 50
  /\ (let sg := run (generateSignal "AAPL" (with_scores 12.24 2.04)) (constant_rng 0.5) in
      0 <= c_sentiment (components sg) <= 100 /\ 0 <= s_confidence sg <= 87).
Proof.
  assert (Hd : unit_draws (constant_rng 0.5)).
  { intros i. cbn. split; [discriminate | reflexivity]. }
  assert (Hpn : -50 <= positive (sentiment (with_scores 12.24 2.04))
                       - negative (sentiment (with_scores 12.24 2.04)) <= 50).
  { cbn. split; [discriminate | discriminate]. }
  assert (Hown : Set_has Object_prototype "AAPL" = false) by reflexivity.
  split; [exact Hown | split; [exact Hd | split; [exact Hpn |]]].
  exact (@balanced_sentiment_confidence "AAPL" (with_scores 12.24 2.04) _ Hown Hd Hpn).
Defined.
End DecisionAndConfidence.

(** X17. Every signal carries between one and three reasons, and the
    first one, the one the table shows, is fixed by the decision; a HOLD
    carries exactly its two. *)
Theorem reasoning_shape {N : Type} `{Number N}
        (ticker : string) (nlpResult : NLPResult N) (g : Rng N) :
  let sg := run (generateSignal ticker nlpResult) g in
  (1 <= List.length (reasoning sg) <= 3)%nat
  /\ hd_error (reasoning sg)
     = Some (match signal sg with
             | BUY => "Strong positive sentiment detected in filings"
             | HOLD => "Mixed signals from sentiment analysis"
             | SELL => "Elevated negative sentiment in disclosures"
             end)
  /\ (signal sg = HOLD ->
      reasoning sg = ["Mixed signals from sentiment analysis";
                      "Await clearer directional catalyst"]).
Proof.
  intros sg. subst sg.
  destruct (generateSignal_assemble ticker nlpResult g) as (f & t & -> & _).
  cbn [assemble signal reasoning]. unfold classify.
  destruct (ngeb _ (dec 65 2)); [| destruct (ngeb _ (dec 40 2))]; cbn [fst snd].
  - destruct (ngtb f _); destruct (ngtb t _); cbn; repeat split; try lia; discriminate.
  - cbn. repeat split; lia.
  - destruct (nltb f _); destruct (nltb t _); cbn; repeat split; try lia; discriminate.
Qed.


(** ** The simulated backtest, continued *)

Section BacktestSummary.
Local Open Scope Q_scope.

Lemma Qfloor_unique (z : Z) (x : Q) :
  inject_Z z <= x -> x < inject_Z (z + 1) -> Qfloor x = z.
Proof.
  intros Hle Hlt. apply Z.le_antisymm.
  - apply Z.lt_succ_r. rewrite Zlt_Qlt.
    apply Qle_lt_trans with x; [apply Qfloor_le | exact Hlt].
  - rewrite <- (Qfloor_Z z). now apply Qfloor_resp_le.
Qed.

Lemma Qround_half_up_comp (a b : Q) : a == b -> Qround_half_up a == Qround_half_up b.
Proof.
  intros Hab. unfold Qround_half_up.
  assert (H : a + (1 # 2) == b + (1 # 2)) by (rewrite Hab; reflexivity).
  now rewrite (Qfloor_comp _ _ H).
Qed.

Lemma Qround_half_up_shift (x : Q) (k : Z) :
  Qround_half_up (x + inject_Z k) == Qround_half_up x + inject_Z k.
Proof.
  unfold Qround_half_up. rewrite <- inject_Z_plus.
  apply inject_Z_injective.
  apply Qfloor_unique.
  - rewrite inject_Z_plus.
    pose proof (Qfloor_le (x + (1 # 2))). lra.
  - rewrite !inject_Z_plus.
    pose proof (Qlt_floor (x + (1 # 2))) as Hlt. rewrite inject_Z_plus in Hlt. lra.
Qed.

Lemma Qround_half_up_below (z : Z) (q : Q) :
  q < inject_Z z + (1 # 2) -> Qround_half_up q <= inject_Z z.
Proof.
  intros Hq. unfold Qround_half_up. rewrite <- Zle_Qle.
  apply Z.lt_succ_r. rewrite Zlt_Qlt.
  apply Qle_lt_trans with (q + (1 # 2)); [apply Qfloor_le |].
  unfold Z.succ. rewrite inject_Z_plus. change (inject_Z 1) with 1. lra.
Qed.

Lemma fraction_unit (k n : nat) :
  (k <= n)%nat -> 0 <= of_nat k / orElse (of_nat n) (int 1) <= 1.
Proof.
  intros Hk. pose proof (fraction_range Hk) as [H0 H1]. split; lra.
Qed.

Lemma volatility_bounds (signals : list (Signal Q)) :
  0 <= signalQuality signals <= 1 /\ 0.13 <= volatility signals <= 0.18.
Proof.
  assert (Hq : 0 <= signalQuality signals <= 1).
  { unfold signalQuality. cbn [ndiv Number_Q]. apply fraction_unit.
    apply filter_length_le. }
  split; [exact Hq |].
  unfold volatility. cbn [nsub nmul Number_Q].
  change (dec 18 2) with 0.18. change (dec 5 2) with 0.05. split; lra.
Qed.

(** X18. The share of BUY signals lies in [0,1], so the simulated
    volatility lies in [0.13, 0.18]: the Sharpe ratio never divides by
    zero. *)
Theorem volatility_range (signals : list (Signal Q)) :
  0 <= signalQuality signals <= 1 /\ 0.13 <= volatility signals <= 0.18.
Proof. apply volatility_bounds; assumption. Qed.

Lemma alpha_trades_formula (signals : list (Signal Q)) (config : BacktestConfig Q) (g : Rng Q) :
  let r := run (backtest signals config) g in
  alpha r == returns r - 8
  /\ trades r == inject_Z (5 * Z.of_nat (List.length signals) / 2).
Proof.
  intros r. subst r. unfold backtest, run, bind, ret, Math_random.
  cbn [fst alpha returns trades Math_round Math_floor nsub nmul ndiv Number_Q].
  change (int 100) with 100. change (int 10) with 10. change (dec 8 2) with 0.08.
  change (dec 25 1) with 2.5.
  set (b := baseReturn signals). split.
  - assert (Hshift : (b - 0.08) * 100 * 10 == b * 100 * 10 + inject_Z (-80)).
    { change (inject_Z (-80)) with (-80). ring. }
    rewrite (Qround_half_up_comp Hshift), Qround_half_up_shift.
    change (inject_Z (-80)) with (-80). field.
  - unfold of_nat. cbn [of_Z Number_Q].
    set (n := Z.of_nat (List.length signals)).
    assert (Heq : inject_Z n * 2.5 == (5 * n) # 2).
    { unfold Qeq, Qmult, inject_Z. cbn [Qnum Qden Pos.mul]. lia. }
    rewrite (Qfloor_comp _ _ Heq). reflexivity.
Qed.

Lemma sum_confidence_le (signals : list (Signal Q)) (top : Q) :
  (forall s, In s signals -> s_confidence s <= top) ->
  forall acc : Q,
    fold_left (fun sum s => (sum + s_confidence s)%num) signals acc
    <= acc + top * of_nat (List.length signals).
Proof.
  induction signals as [|s rest IH]; intros Hall acc; cbn [fold_left List.length].
  - change (of_nat (N := Q) 0) with 0. lra.
  - eapply Qle_trans; [apply IH; intros s' Hin; apply Hall; now right |].
    pose proof (Hall s (or_introl eq_refl)) as Hs.
    cbn [nadd Number_Q].
    assert (Hn : of_nat (N := Q) (S (List.length rest)) == of_nat (List.length rest) + 1).
    { change (S (List.length rest)) with (1 + List.length rest)%nat.
      rewrite of_nat_plus. change (of_nat 1) with 1. ring. }
    rewrite Hn. lra.
Qed.

Lemma avgConfidence_le (signals : list (Signal Q)) (top : Q) :
  0 <= top ->
  (forall s, In s signals -> s_confidence s <= top) ->
  avgConfidence signals <= top.
Proof.
  intros Htop Hall. unfold avgConfidence. cbn [ndiv Number_Q].
  apply Qle_shift_div_r; [apply divisor_positive |].
  pose proof (sum_confidence_le signals Hall 0) as Hsum.
  change (int 0) with 0.
  pose proof (count_le_total (Nat.le_refl (List.length signals))) as Hn.
  assert (Hmul : top * of_nat (List.length signals)
                 <= top * orElse (of_nat (List.length signals)) (int 1)).
  { rewrite !(Qmult_comm top). now apply Qmult_le_compat_r. }
  lra.
Qed.

Lemma rounded_quotient_range (q lo hi : Q) (k zl zh : Z) :
  0 < inject_Z k ->
  lo * inject_Z k <= inject_Z zl -> inject_Z zh <= hi * inject_Z k ->
  inject_Z zl <= q -> q < inject_Z zh + (1 # 2) ->
  lo <= Qround_half_up q / inject_Z k <= hi.
Proof.
  intros Hk Hlo Hhi Hq0 Hq1. split.
  - apply Qle_shift_div_l; [assumption |].
    apply Qle_trans with (inject_Z zl); [assumption | now apply Qround_half_up_ge].
  - apply Qle_shift_div_r; [assumption |].
    apply Qle_trans with (inject_Z zh); [now apply Qround_half_up_below | assumption].
Qed.

Lemma summary_ranges (signals : list (Signal Q)) (config : BacktestConfig Q) (g : Rng Q) :
  unit_draws g ->
  (forall s, In s signals -> 0 <= s_confidence s <= 122) ->
  let r := run (backtest signals config) g in
  55 <= winRate r <= 79.4 /\ 15 <= returns r <= 27.2 /\ 7 <= alpha r <= 19.2
  /\ 0.83 <= sharpeRatio r <= 2.09 /\ -18 <= maxDrawdown r <= -8.
Proof.
  intros Hdraws Hall r.
  pose proof (alpha_trades_formula signals config g) as [Halpha _]. fold r in Halpha.
  assert (Havg0 : 0 <= avgConfidence signals).
  { apply avgConfidence_nonneg. intros s Hs. apply (Hall s Hs). }
  assert (Havg1 : avgConfidence signals <= 122).
  { apply avgConfidence_le; [discriminate |]. intros s Hs. apply (Hall s Hs). }
  pose proof (volatility_bounds signals) as [_ [Hv0 Hv1]].
  assert (Hb : 0.15 <= baseReturn signals <= 0.272).
  { unfold baseReturn. cbn [nadd nmul ndiv Number_Q].
    change (dec 15 2) with 0.15. change (int 100) with 100. change (dec 1 1) with 0.1.
    unfold Qdiv. change (/ 100) with (1 # 100). split; lra. }
  pose proof (Hdraws (cursor g)) as [Hd0 Hd1].
  assert (Hpos : 0 < volatility signals) by lra.
  assert (Hs0 : 15 # 18 <= baseReturn signals / volatility signals).
  { apply Qle_shift_div_l; [assumption | lra]. }
  assert (Hs1 : baseReturn signals / volatility signals <= 272 # 130).
  { apply Qle_shift_div_r; [assumption | lra]. }
  assert (Hret : 15 <= returns r <= 27.2).
  { apply (rounded_quotient_range (k := 10) (zl := 150) (zh := 272));
      [reflexivity | discriminate | discriminate | |];
      cbn [nmul Number_Q]; change (int 100) with 100; change (int 10) with 10;
      change (inject_Z 150) with 150; change (inject_Z 272) with 272; lra. }
  split; [| split; [exact Hret | split; [rewrite Halpha; split; lra | split]]].
  - apply (rounded_quotient_range (k := 10) (zl := 550) (zh := 794));
      [reflexivity | discriminate | discriminate | |];
      cbn [nadd nmul Number_Q];
      change (int 55) with 55; change (int 10) with 10; change (dec 2 1) with 0.2;
      change (inject_Z 550) with 550; change (inject_Z 794) with 794; lra.
  - apply (rounded_quotient_range (k := 100) (zl := 83) (zh := 209));
      [reflexivity | discriminate | discriminate | |];
      cbn [nmul ndiv Number_Q]; change (int 100) with 100;
      change (inject_Z 83) with 83; change (inject_Z 209) with 209.
    + apply Qle_trans with ((15 # 18) * 100); [discriminate | lra].
    + apply Qle_lt_trans with ((272 # 130) * 100); [lra | reflexivity].
  - apply (rounded_quotient_range (k := 100) (zl := -1800) (zh := -800));
      [reflexivity | discriminate | discriminate | |];
      cbn [fst draws nsub nmul Number_Q];
      change (int 100) with 100; change (int 10) with 10; change (int (-8)) with (-8);
      change (inject_Z (-1800)) with (-1800); change (inject_Z (-800)) with (-800); lra.
Qed.

(** X21. For signals with confidences in [0,122], the range the
    pipeline stays in, and a draw in [0,1): the win rate lies in
    [55, 79.4], the return in [15, 27.2], alpha in [7, 19.2], the Sharpe
    ratio in [0.83, 2.09] and the maximal drawdown in [-18, -8]. *)
Theorem backtest_ranges (signals : list (Signal Q)) (config : BacktestConfig Q) (g : Rng Q) :
  unit_draws g ->
  (forall s, In s signals -> 0 <= s_confidence s <= 122) ->
  let r := run (backtest signals config) g in
  55 <= winRate r <= 79.4 /\ 15 <= returns r <= 27.2 /\ 7 <= alpha r <= 19.2
  /\ 0.83 <= sharpeRatio r <= 2.09 /\ -18 <= maxDrawdown r <= -8.
Proof. apply summary_ranges; assumption. Qed.

Lemma backtest_ranges_witness :
  let signals := [assemble "NVDA" 1.5 0.88 0.91] in
  let r := run (backtest signals {| bufferDays := 5; initialCapital := 1000000 |})
               (constant_rng 0.5) in
  unit_draws (constant_rng 0.5)
  /\ (forall s, In s signals -> 0 <= s_confidence s <= 122)
  /\ (55 <= winRate r <= 79.4 /\ 15 <= returns r <= 27.2 /\ 7 <= alpha r <= 19.2
      /\ 0.83 <= sharpeRatio r <= 2.09 /\ -18 <= maxDrawdown r <= -8).
Proof.
  intros signals r.
  assert (Hd : unit_draws (constant_rng 0.5)).
  { intros i. cbn. split; [discriminate | reflexivity]. }
  assert (Hall : forall s, In s signals -> 0 <= s_confidence s <= 122).
  { intros s [<- | []]. vm_compute. split; discriminate. }
  split; [exact Hd | split; [exact Hall |]].
  exact (@backtest_ranges signals {| bufferDays := 5; initialCapital := 1000000 |}
           (constant_rng 0.5) Hd Hall).
Defined.
End BacktestSummary.


(** ** The page's run *)

Section PageRun.
Context {N : Type} `{Number N}.
Variables Math_sin Math_sqrt : N -> N.

Lemma generateSignals_listed (filings : list Filing) :
  (forall filing, In filing filings -> listed (f_ticker filing) = true) ->
  forall g g' : Rng N,
    snd (generateSignals Math_sin Math_sqrt filings g) = g
    /\ fst (generateSignals Math_sin Math_sqrt filings g)
       = fst (generateSignals Math_sin Math_sqrt filings g').
Proof.
  induction filings as [|filing rest IH]; intros Hall g g'.
  - split; reflexivity.
  - assert (Hl : listed (f_ticker filing) = true) by (apply Hall; now left).
    pose proof (signal_draws (f_ticker filing)
                  (analyze Math_sin Math_sqrt (f_text filing)) g) as Hg.
    pose proof (signal_draws (f_ticker filing)
                  (analyze Math_sin Math_sqrt (f_text filing)) g') as Hg'.
    rewrite Hl in Hg, Hg'. cbn [orb] in Hg, Hg'.
    destruct Hg as [Hsnd Hind]. destruct Hg' as [Hsnd' _].
    specialize (Hind g'). unfold run in Hind.
    assert (Hrest : forall filing', In filing' rest -> listed (f_ticker filing') = true)
      by (intros f' Hf'; apply Hall; now right).
    destruct (IH Hrest g g') as [IHsnd IHfst].
    destruct (IH Hrest g' g') as [IHsnd' _].
    unfold generateSignals in *. cbn [mapM]. unfold bind, ret in *.
    destruct (generateSignal (f_ticker filing) _ g) as [sg g1].
    destruct (generateSignal (f_ticker filing) _ g') as [sg' g1'].
    cbn [fst snd] in *. subst g1 g1' sg'.
    destruct (mapM _ rest g) as [sgs g2].
    destruct (mapM _ rest g') as [sgs' g2'].
    cbn [fst snd] in *. subst. split; reflexivity.
Qed.

(** X22. On the sample filings, whose tickers are all in the tables,
    the signals draw no random number; the backtest section draws
    exactly one, and of its six numbers only the maximal drawdown
    depends on it. *)
Theorem page_run_draws_once (g g' : Rng N) :
  let r := run (runBacktestSection Math_sin Math_sqrt) g in
  let r' := run (runBacktestSection Math_sin Math_sqrt) g' in
  snd (generateSignals Math_sin Math_sqrt sampleFilings g) = g
  /\ snd (runBacktestSection Math_sin Math_sqrt g) = advance 1 g
  /\ sharpeRatio r = sharpeRatio r' /\ winRate r = winRate r' /\ alpha r = alpha r'
  /\ trades r = trades r' /\ returns r = returns r'.
Proof.
  assert (Hall : forall filing, In filing sampleFilings -> listed (f_ticker filing) = true).
  { intros filing Hin. unfold sampleFilings in Hin. cbn [In] in Hin.
    repeat (destruct Hin as [<- | Hin]; [reflexivity |]). destruct Hin. }
  destruct (generateSignals_listed sampleFilings Hall g g') as [Hsnd Hfst].
  destruct (generateSignals_listed sampleFilings Hall g' g') as [Hsnd' _].
  cbn zeta. unfold runBacktestSection, run, bind.
  destruct (generateSignals Math_sin Math_sqrt sampleFilings g) as [sgs g1].
  destruct (generateSignals Math_sin Math_sqrt sampleFilings g') as [sgs' g1'].
  cbn [fst snd] in *. subst g1 g1' sgs'.
  unfold backtest, bind, ret, Math_random, advance. cbn.
  repeat split. f_equal. lia.
Qed.
End PageRun.

Section PageRanges.
Local Open Scope Q_scope.
Variables Math_sin Math_sqrt : Q -> Q.

Lemma generateSignal_keeps_draws (ticker : string) (nlpResult : NLPResult Q) (g : Rng Q) :
  unit_draws g -> unit_draws (snd (generateSignal ticker nlpResult g)).
Proof.
  intros Hd. pose proof (signal_draws ticker nlpResult g) as Hg.
  destruct (listed ticker || Set_has Object_prototype ticker).
  - destruct Hg as [-> _]. exact Hd.
  - rewrite Hg. intros i. apply (Hd i).
Qed.

Lemma generateSignals_confidences (filings : list Filing) :
  (forall filing, In filing filings -> Set_has Object_prototype (f_ticker filing) = false) ->
  forall g : Rng Q,
    unit_draws g ->
    forall s, In s (fst (generateSignals Math_sin Math_sqrt filings g)) ->
              0 <= s_confidence s <= 122.
Proof.
  induction filings as [|filing rest IH]; intros Hown g Hd s Hin.
  - destruct Hin.
  - unfold generateSignals in *. cbn [mapM] in Hin. unfold bind, ret in Hin.
    pose proof (@text_signal_ranges Math_sin Math_sqrt (f_text filing)
                  (f_ticker filing) g (Hown filing (or_introl eq_refl)) Hd) as Hr.
    pose proof (@generateSignal_keeps_draws (f_ticker filing)
                  (analyze Math_sin Math_sqrt (f_text filing)) g Hd) as Hd1.
    cbn zeta in Hr. unfold run in Hr.
    destruct (generateSignal (f_ticker filing) _ g) as [sg g1].
    cbn [fst snd] in *.
    specialize (IH (fun filing' Hin' => Hown filing' (or_intror Hin')) g1 Hd1).
    destruct (mapM _ rest g1) as [sgs g2]. cbn [fst snd] in *.
    destruct Hin as [<- | Hin]; [apply Hr | now apply IH].
Qed.

(** X23. For filings whose tickers name no member of
    [Object.prototype], with draws in [0,1), the summary that the
    backtest computes from their signals has its win rate in
    [55, 79.4], its return in [15, 27.2], alpha in [7, 19.2], the Sharpe
    ratio in [0.83, 2.09] and the maximal drawdown in [-18, -8]. *)
Theorem pipeline_backtest_ranges
        (filings : list Filing) (config : BacktestConfig Q) (g : Rng Q) :
  (forall filing, In filing filings -> Set_has Object_prototype (f_ticker filing) = false) ->
  unit_draws g ->
  let r := run (signals <- generateSignals Math_sin Math_sqrt filings ;;
                backtest signals config) g in
  55 <= winRate r <= 79.4 /\ 15 <= returns r <= 27.2 /\ 7 <= alpha r <= 19.2
  /\ 0.83 <= sharpeRatio r <= 2.09 /\ -18 <= maxDrawdown r <= -8.
Proof.
  intros Hown Hd r. subst r. unfold run, bind.
  pose proof (generateSignals_confidences filings Hown Hd) as Hconf.
  assert (Hd1 : unit_draws (snd (generateSignals Math_sin Math_sqrt filings g))).
  { clear Hconf Hown. revert g Hd. induction filings as [|filing rest IH]; intros g Hd.
    - exact Hd.
    - unfold generateSignals in *. cbn [mapM]. unfold bind, ret.
      pose proof (@generateSignal_keeps_draws (f_ticker filing)
                    (analyze Math_sin Math_sqrt (f_text filing)) g Hd) as Hd1.
      destruct (generateSignal (f_ticker filing) _ g) as [sg g1]. cbn [snd] in Hd1.
      specialize (IH g1 Hd1).
      destruct (mapM _ rest g1) as [sgs g2]. exact IH. }
  destruct (generateSignals Math_sin Math_sqrt filings g) as [sgs g1].
  cbn [fst snd] in *.
  exact (@summary_ranges sgs config g1 Hd1 Hconf).
Qed.
End PageRanges.

Lemma pipeline_backtest_ranges_witness :
  ((forall filing, In filing [{| f_ticker := "XYZ"; f_text := all_growth |}] ->
                   Set_has SignalGenerator.Object_prototype (f_ticker filing) = false)
   /\ unit_draws (constant_rng 0.5)
   /\ let r := run (signals <- generateSignals (fun x => x) (fun x => x)
                                 [{| f_ticker := "XYZ"; f_text := all_growth |}] ;;
                    backtest signals {| bufferDays := 5; initialCapital := 1000000 |})
                   (constant_rng 0.5) in
      55 <= winRate r <= 79.4 /\ 15 <= returns r <= 27.2 /\ 7 <= alpha r <= 19.2
      /\ 0.83 <= sharpeRatio r <= 2.09 /\ -18 <= maxDrawdown r <= -8)%Q.
Proof.
  assert (Hd : unit_draws (constant_rng 0.5%Q)).
  { intros i. cbn. split; [discriminate | reflexivity]. }
  assert (Hown : forall filing, In filing [{| f_ticker := "XYZ"; f_text := all_growth |}] ->
                 Set_has SignalGenerator.Object_prototype (f_ticker filing) = false).
  { intros filing [<- | []]. reflexivity. }
  split; [exact Hown | split; [exact Hd |]].
  exact (@pipeline_backtest_ranges (fun x => x) (fun x => x)
           [{| f_ticker := "XYZ"; f_text := all_growth |}]
           {| bufferDays := 5%Q; initialCapital := 1000000%Q |} (constant_rng 0.5%Q) Hown Hd).
Defined.


(** ** Theme switch *)

Section ThemeSwitch.
Import Theme.

Lemma toggle_next (p : Page) :
  toggleTheme p = {| dataTheme := Some "dark"; storedTheme := Some "dark" |}
  \/ toggleTheme p = {| dataTheme := Some "light"; storedTheme := Some "light" |}.
Proof.
  unfold toggleTheme. destruct (String.eqb (or_dark (dataTheme p)) "dark"); auto.
Qed.

(** X24. After a toggle the attribute and the stored item hold the
    same theme, dark or light; a reload then shows that theme again; and
    a toggle undoes the toggle before it. *)
Theorem toggle_persists (p : Page) :
  let p' := toggleTheme p in
  dataTheme p' = storedTheme p'
  /\ (dataTheme p' = Some "dark" \/ dataTheme p' = Some "light")
  /\ reload p' = p'
  /\ toggleTheme (toggleTheme p') = p'.
Proof.
  intros p'. subst p'.
  destruct (toggle_next p) as [-> | ->]; cbn; repeat split; auto.
Qed.

Lemma handleKeydown_cases (e : KeyEvent) (activeTag : option string) (p : Page) :
  handleKeydown e activeTag p = p \/ handleKeydown e activeTag p = toggleTheme p.
Proof.
  unfold handleKeydown.
  destruct (String.eqb (key e) "t" && negb (ctrlKey e) && negb (metaKey e)); [| now left].
  destruct activeTag as [tag |]; [| now right].
  destruct (negb (String.eqb tag "INPUT" || String.eqb tag "TEXTAREA")); auto.
Qed.

(** X25. Once the saved theme is loaded, whatever keys are pressed
    and wherever, the attribute shows the theme a reload would restore:
    [reload] leaves the page as it is. *)
Theorem keys_keep_theme_persistent
        (events : list (KeyEvent * option string)) (p0 : Page) :
  let p := fold_left (fun p ev => handleKeydown (fst ev) (snd ev) p) events (loadTheme p0) in
  dataTheme p = Some (or_dark (storedTheme p)) /\ reload p = p.
Proof.
  intros p. subst p.
  assert (Hinv : forall q, dataTheme q = Some (or_dark (storedTheme q)) ->
                           dataTheme (fold_left (fun p ev => handleKeydown (fst ev) (snd ev) p)
                                        events q)
                           = Some (or_dark (storedTheme
                                              (fold_left (fun p ev => handleKeydown (fst ev) (snd ev) p)
                                                 events q)))).
  { induction events as [|ev rest IH]; intros q Hq; cbn [fold_left]; [exact Hq |].
    apply IH.
    destruct (handleKeydown_cases (fst ev) (snd ev) q) as [-> | ->]; [exact Hq |].
    destruct (toggle_next q) as [-> | ->]; reflexivity. }
  specialize (Hinv (loadTheme p0) eq_refl).
  split; [exact Hinv |].
  set (p := fold_left _ events (loadTheme p0)) in *.
  unfold reload, loadTheme. cbn [storedTheme]. rewrite <- Hinv.
  destruct p; reflexivity.
Qed.

End ThemeSwitch.

(** ** Counter animation *)

Section CounterAnimation.
Import Counter.
Local Open Scope Q_scope.
Variable Math_pow : Q -> Q -> Q.
Hypothesis Math_pow_cube : forall x : Q, Math_pow x 3 == x * x * x.

Lemma ease_quadratic_eq (p : Q) : ease_quadratic p == 1 - (1 - p) * (1 - p).
Proof. reflexivity. Qed.

Lemma ease_cubic_eq (p : Q) : ease_cubic Math_pow p == 1 - (1 - p) * (1 - p) * (1 - p).
Proof.
  unfold ease_cubic. cbn [nsub Number_Q]. change (int 1) with 1. change (int 3) with 3.
  now rewrite Math_pow_cube.
Qed.

Lemma progress_late (duration start t : Q) :
  0 < duration -> start + duration <= t ->
  Math_min ((t - start) / duration) 1 == 1
  /\ nltb (Math_min ((t - start) / duration) 1) 1 = false.
Proof.
  intros Hd Ht.
  assert (Hge : 1 <= (t - start) / duration).
  { apply Qle_shift_div_l; [assumption | lra]. }
  cbn [Math_min nltb Number_Q].
  destruct (Qle_bool ((t - start) / duration) 1) eqn:E.
  - apply Qle_bool_iff in E. split; [lra |].
    assert (Hb : Qle_bool 1 ((t - start) / duration) = true) by now apply Qle_bool_iff.
    now rewrite Hb.
  - split; reflexivity.
Qed.

Lemma progress_early (duration start t : Q) :
  0 < duration -> t < start + duration ->
  Math_min ((t - start) / duration) 1 == (t - start) / duration
  /\ (t - start) / duration < 1
  /\ nltb (Math_min ((t - start) / duration) 1) 1 = true.
Proof.
  intros Hd Ht.
  assert (Hlt : (t - start) / duration < 1).
  { apply Qlt_shift_div_r; [assumption | lra]. }
  cbn [Math_min nltb Number_Q].
  assert (Hb : Qle_bool ((t - start) / duration) 1 = true) by (apply Qle_bool_iff; lra).
  rewrite Hb. split; [reflexivity | split; [assumption |]].
  destruct (Qle_bool 1 ((t - start) / duration)) eqn:E; [| reflexivity].
  apply Qle_bool_iff in E. lra.
Qed.

Lemma animate_late (ease : Q -> Q) (target duration start t : Q) :
  (forall p, p == 1 -> ease p == 1) ->
  0 < duration -> start + duration <= t ->
  fst (animate ease target duration start t) == target
  /\ snd (animate ease target duration start t) = false.
Proof.
  intros Hease Hd Ht. unfold animate. cbn [fst snd nsub nmul ndiv Number_Q].
  change (int 1) with 1.
  destruct (progress_late Hd Ht) as [Hp Hb].
  split; [| exact Hb].
  rewrite (Hease _ Hp). ring.
Qed.

Lemma animate_early (ease : Q -> Q) (target duration start t : Q) :
  0 < duration -> t < start + duration ->
  snd (animate ease target duration start t) = true.
Proof.
  intros Hd Ht. unfold animate. cbn [snd nsub ndiv Number_Q]. change (int 1) with 1.
  apply (progress_early Hd Ht).
Qed.

Lemma play_lands (ease : Q -> Q) (target duration start : Q) (frames : list Q) :
  (forall p, p == 1 -> ease p == 1) ->
  0 < duration ->
  (exists t, In t frames /\ start + duration <= t) ->
  forall count, play ease target duration start frames count == target.
Proof.
  intros Hease Hd. induction frames as [|t later IH]; intros [t' [Hin Ht']] count.
  - destruct Hin.
  - cbn [play].
    destruct (Qlt_le_dec t (start + duration)) as [Hearly | Hlate].
    + pose proof (@animate_early ease target _ _ _ Hd Hearly) as Hb.
      destruct (animate ease target duration start t) as [c again].
      cbn [snd] in Hb. subst again.
      apply IH. destruct Hin as [-> | Hin]; [lra | now exists t'].
    + pose proof (@animate_late ease target _ _ _ Hease Hd Hlate) as [Hc Hb].
      destruct (animate ease target duration start t) as [c again].
      cbn [fst snd] in *. now subst again.
Qed.

(** X26. With either easing the counter ends exactly at its target:
    as soon as a frame arrives at or after the end of the duration the
    count is the target and no further frame is requested, whatever
    frames came before. *)
Theorem counter_lands_on_target (target duration start : Q) (frames : list Q) (count : Q) :
  0 < duration ->
  (exists t, In t frames /\ start + duration <= t) ->
  play ease_quadratic target duration start frames count == target
  /\ play (ease_cubic Math_pow) target duration start frames count == target.
Proof.
  intros Hd Hex. split; apply play_lands; try assumption.
  - intros p Hp. rewrite ease_quadratic_eq, Hp. ring.
  - intros p Hp. rewrite ease_cubic_eq, Hp. ring.
Qed.
End CounterAnimation.

Lemma counter_lands_on_target_witness :
  ((forall x : Q, (fun b _ : Q => b * b * b) x 3 == x * x * x)
   /\ 0 < 2000
   /\ (exists t, In t [16; 1000; 2016; 2032] /\ 0 + 2000 <= t)
   /\ Counter.play Counter.ease_quadratic 847291 2000 0 [16; 1000; 2016; 2032] 0 == 847291
   /\ Counter.play (Counter.ease_cubic (fun b _ : Q => b * b * b)) 847291 2000 0
        [16; 1000; 2016; 2032] 0 == 847291)%Q.
Proof.
  assert (Hpow : forall x : Q, ((fun b _ : Q => b * b * b) x 3 == x * x * x)%Q)
    by (intros x; reflexivity).
  assert (Hd : (0 < 2000)%Q) by reflexivity.
  assert (Hex : exists t, In t [16; 1000; 2016; 2032]%Q /\ (0 + 2000 <= t)%Q).
  { exists 2016%Q. split; [right; right; left; reflexivity | discriminate]. }
  split; [exact Hpow | split; [exact Hd | split; [exact Hex |]]].
  exact (@counter_lands_on_target (fun b _ : Q => (b * b * b)%Q) Hpow 847291%Q 2000%Q 0%Q
           [16; 1000; 2016; 2032]%Q 0%Q Hd Hex).
Defined.


(** ** Number formatting *)

Section NumberFormatting.
Import Format.

Lemma digit_class (c : ascii) : class_has false is_digit c = is_digit c.
Proof. unfold class_has. cbn [andb]. apply orb_false_r. Qed.

Lemma three_digits_exec (s : string) (k : string -> option string) :
  rmatch false (Times 3 (Class is_digit)) s k
  = match s with
    | String a (String b (String c s')) =>
        if is_digit a && is_digit b && is_digit c then k s' else None
    | _ => None
    end.
Proof.
  cbn [Times rmatch].
  destruct s as [|a [|b [|c s']]]; rewrite ?digit_class.
  - reflexivity.
  - destruct (is_digit a); reflexivity.
  - destruct (is_digit a); [| reflexivity]. rewrite ?digit_class.
    destruct (is_digit b); reflexivity.
  - destruct (is_digit a); [| reflexivity]. rewrite ?digit_class.
    destruct (is_digit b); [| reflexivity]. rewrite ?digit_class.
    destruct (is_digit c); reflexivity.
Qed.

(** Dropping the digits [s] starts with. *)
Lemma digit_run_le (s : string) : (digit_run s <= String.length s)%nat.
Proof.
  induction s as [|c s IH]; cbn; [lia |]. destruct (is_digit c); lia.
Qed.

(** Groups of three digits, as many as there are, then a position that
    no digit follows: possible exactly when the digits at the start of
    [s] come in a multiple of three. *)
Lemma digit_groups_exec (k : string -> option string) :
  (forall r, (0 < digit_run r)%nat -> k r = None) ->
  forall s,
    (digit_run s mod 3 <> 0)%nat ->
    rmatch false (Star (Times 3 (Class is_digit))) s k = None.
Proof.
  intros Hk s. cbn [rmatch].
  match goal with |- _ -> ?f (String.length s) s = _ => set (iterate := f) end.
  assert (Hit : forall fuel s0, (String.length s0 <= fuel)%nat ->
                                (digit_run s0 mod 3 <> 0)%nat -> iterate fuel s0 = None).
  { induction fuel as [|fuel IH]; intros s0 Hlen Hrun.
    - destruct s0; [cbn in Hrun; lia | cbn in Hlen; lia].
    - unfold iterate; fold iterate.
      change (rmatch false (Times 3 (Class is_digit)) s0
                (fun s' => if (String.length s' <? String.length s0)%nat
                           then iterate fuel s' else None))
        with (rmatch false (Times 3 (Class is_digit)) s0
                (fun s' => if (String.length s' <? String.length s0)%nat
                           then iterate fuel s' else None)).
      rewrite three_digits_exec.
      assert (Hfall : k s0 = None).
      { apply Hk. destruct (digit_run s0); [cbn in Hrun; lia | lia]. }
      destruct s0 as [|a [|b [|c s']]]; try exact Hfall.
      destruct (is_digit a) eqn:Ea; [| exact Hfall].
      destruct (is_digit b) eqn:Eb; [| exact Hfall].
      destruct (is_digit c) eqn:Ec; [| exact Hfall].
      cbn [andb String.length].
      rewrite (proj2 (Nat.ltb_lt _ _)) by lia.
      rewrite IH; [exact Hfall | cbn [String.length] in Hlen; lia |].
      cbn [digit_run] in Hrun. rewrite Ea, Eb, Ec in Hrun.
      intros H3. apply Hrun.
      change (S (S (S (digit_run s')))) with (3 + digit_run s')%nat.
      rewrite <- Nat.Div0.add_mod_idemp_l. cbn. exact H3. }
  intros Hrun. apply Hit; [lia | exact Hrun].
Qed.

Lemma digit_groups_exec_all (k : string -> option string) :
  (forall r, digit_run r = 0%nat -> k r = Some r) ->
  forall s,
    (digit_run s mod 3 = 0)%nat ->
    exists r, rmatch false (Star (Times 3 (Class is_digit))) s k = Some r.
Proof.
  intros Hk s. cbn [rmatch].
  match goal with |- _ -> exists r, ?f (String.length s) s = _ => set (iterate := f) end.
  assert (Hit : forall fuel s0, (String.length s0 <= fuel)%nat ->
                                (digit_run s0 mod 3 = 0)%nat ->
                                exists r, iterate fuel s0 = Some r).
  { induction fuel as [|fuel IH]; intros s0 Hlen Hrun.
    - destruct s0; [| cbn in Hlen; lia]. exists EmptyString. cbn. now apply Hk.
    - unfold iterate; fold iterate. rewrite three_digits_exec.
      assert (Hnone : digit_run s0 = 0%nat -> exists r, k s0 = Some r).
      { intros H0. exists s0. now apply Hk. }
      destruct s0 as [|a [|b [|c s']]].
      + now apply Hnone.
      + cbn [digit_run] in *. destruct (is_digit a); [cbn in Hrun; lia | now apply Hnone].
      + cbn [digit_run] in *. destruct (is_digit a); [| now apply Hnone].
        destruct (is_digit b); cbn in Hrun; lia.
      + cbn [digit_run] in *. destruct (is_digit a); [| now apply Hnone].
        destruct (is_digit b); [| cbn in Hrun; lia].
        destruct (is_digit c); [| cbn in Hrun; lia].
        cbn [andb String.length].
        rewrite (proj2 (Nat.ltb_lt _ _)) by lia.
        destruct (IH s') as [r Hr]; [cbn [String.length] in Hlen; lia | |].
        * change (S (S (S (digit_run s')))) with (3 + digit_run s')%nat in Hrun.
          rewrite <- Nat.Div0.add_mod_idemp_l in Hrun. exact Hrun.
        * exists r. now rewrite Hr. }
  intros Hrun. apply Hit; [lia | exact Hrun].
Qed.

(** The continuation behind [(?!\d)]. *)
Lemma no_digit_ahead (prev : option ascii) (r : string) :
  xmatch (XNotAhead (XBase (Class is_digit))) prev r (fun _ rest => Some rest)
  = if (0 <? digit_run r)%nat then None else Some r.
Proof.
  cbn [xmatch rmatch]. destruct r as [|c r]; [reflexivity |].
  rewrite digit_class. cbn [digit_run]. destruct (is_digit c); reflexivity.
Qed.

Lemma thousands_unfold (prev : option ascii) (s : string) :
  xexec_at re_thousands prev s
  = if Bool.eqb (word_before prev) (word_at s)
    then match rmatch false (Times 3 (Class is_digit)) s
                 (fun s' =>
                    rmatch false (Star (Times 3 (Class is_digit))) s'
                      (fun rest =>
                         xmatch (XNotAhead (XBase (Class is_digit)))
                           (last_read prev s (String.length s - String.length rest)) rest
                           (fun _ rest0 => Some rest0))) with
         | Some _ => Some s
         | None => None
         end
    else None.
Proof. reflexivity. Qed.

(** The pattern matches, without reading anything, exactly between two
    word characters or two others when a positive multiple of three
    digits follows. *)
Lemma thousands_exec (prev : option ascii) (s : string) :
  xexec_at re_thousands prev s
  = if Bool.eqb (word_before prev) (word_at s)
       && (0 <? digit_run s)%nat && (digit_run s mod 3 =? 0)%nat
    then Some s else None.
Proof.
  rewrite thousands_unfold.
  destruct (Bool.eqb (word_before prev) (word_at s)); [| reflexivity].
  cbn [andb]. rewrite three_digits_exec.
  set (k := fun rest : string =>
              xmatch (XNotAhead (XBase (Class is_digit)))
                (last_read prev s (String.length s - String.length rest)) rest
                (fun _ rest0 => Some rest0)).
  assert (Hk0 : forall r, (0 < digit_run r)%nat -> k r = None).
  { intros r Hr. unfold k. rewrite no_digit_ahead.
    now rewrite (proj2 (Nat.ltb_lt _ _) Hr). }
  assert (Hk1 : forall r, digit_run r = 0%nat -> k r = Some r).
  { intros r Hr. unfold k. rewrite no_digit_ahead. now rewrite Hr. }
  clearbody k.
  destruct s as [|a [|b [|c s']]]; cbn [digit_run].
  - reflexivity.
  - destruct (is_digit a); reflexivity.
  - destruct (is_digit a); [| reflexivity]. destruct (is_digit b); reflexivity.
  - destruct (is_digit a); [| reflexivity].
    destruct (is_digit b); [| reflexivity].
    destruct (is_digit c); [| reflexivity].
    cbn [andb].
    change (0 <? S (S (S (digit_run s'))))%nat with true. cbn [andb].
    change (S (S (S (digit_run s')))) with (3 + digit_run s')%nat.
    rewrite <- Nat.Div0.add_mod_idemp_l. change (3 mod 3 + digit_run s')%nat with (digit_run s').
    destruct (digit_run s' mod 3 =? 0)%nat eqn:E.
    + apply Nat.eqb_eq in E.
      destruct (digit_groups_exec_all k Hk1 s' E) as [r Hr].
      now rewrite Hr.
    + apply Nat.eqb_neq in E.
      now rewrite (digit_groups_exec k Hk0 s' E).
Qed.

(** Replacing every match by a comma is the direct scan
    [group_digits]. *)
Lemma thousands_replace (fuel : nat) :
  forall (prev : option ascii) (s : string),
    (String.length s < fuel)%nat ->
    xreplace_from fuel re_thousands "," prev s = group_digits (word_before prev) s.
Proof.
  induction fuel as [|fuel IH]; intros prev s Hlen; [lia |].
  cbn [xreplace_from]. rewrite thousands_exec.
  destruct s as [|c s].
  - cbn. destruct (word_before prev); reflexivity.
  - cbn [String.length] in Hlen. rewrite IH by lia.
    cbn [group_digits word_at word_before digit_run].
    destruct (is_digit c) eqn:Ed.
    + assert (Hw : is_word c = true).
      { unfold is_word. rewrite Ed. now rewrite !orb_true_r. }
      rewrite Hw. change (0 <? S (digit_run s))%nat with true.
      destruct (word_before prev); destruct (S (digit_run s) mod 3 =? 0)%nat;
        cbn [Bool.eqb andb]; try reflexivity.
      rewrite Nat.ltb_irrefl. reflexivity.
    + change (0 <? 0)%nat with false. rewrite !andb_false_r. reflexivity.
Qed.

Lemma xreplace_thousands (s : string) :
  xreplace re_thousands "," s = group_digits false s.
Proof. unfold xreplace. now rewrite thousands_replace by lia. Qed.

Lemma digits_of_uint (d : Decimal.uint) : all_chars is_digit (NilEmpty.string_of_uint d) = true.
Proof. induction d; cbn; auto. Qed.

Lemma digits_of_digits (n : N) : all_chars is_digit (digits_of n) = true.
Proof.
  unfold digits_of, NilZero.string_of_uint.
  destruct (N.to_uint n) eqn:E; try reflexivity; rewrite <- E; apply digits_of_uint.
Qed.

Lemma zeros_digits (n : nat) : all_chars is_digit (zeros n) = true.
Proof. induction n as [|n IH]; cbn; auto. Qed.

Lemma all_chars_substring (p : ascii -> bool) (s : string) :
  all_chars p s = true -> forall i n, all_chars p (substring i n s) = true.
Proof.
  induction s as [|c s IH]; intros Hs i n.
  - destruct i, n; reflexivity.
  - cbn in Hs. apply andb_true_iff in Hs as [Hc Hs].
    destruct i as [|i]; cbn.
    + destruct n as [|n]; [reflexivity |]. cbn. rewrite Hc. now apply IH.
    + now apply IH.
Qed.

Lemma substring_length_le (s : string) :
  forall i n, (String.length (substring i n s) <= n)%nat.
Proof.
  induction s as [|c s IH]; intros i n.
  - destruct i, n; cbn; lia.
  - destruct i as [|i]; cbn.
    + destruct n as [|n]; cbn; [lia |]. specialize (IH 0%nat n). lia.
    + apply IH.
Qed.

Lemma fixed_digits_digits (x : Q) (f : nat) : all_chars is_digit (fixed_digits x f) = true.
Proof.
  unfold fixed_digits.
  destruct (_ <=? f)%nat; [rewrite all_chars_append, zeros_digits |]; apply digits_of_digits.
Qed.

Lemma digit_run_digits (a tail : string) :
  all_chars is_digit a = true ->
  digit_run (a ++ tail) = (String.length a + digit_run tail)%nat.
Proof.
  induction a as [|c a IH]; intros Ha; [reflexivity |].
  cbn in Ha. apply andb_true_iff in Ha as [Hc Ha].
  cbn. rewrite Hc, IH by assumption. reflexivity.
Qed.

Lemma digit_is_word (c : ascii) : is_digit c = true -> is_word c = true.
Proof. intros H. unfold is_word. rewrite H. now rewrite !orb_true_r. Qed.

(** On a run of digits that no digit follows the scan puts the commas
    by the distance to the end of the run. *)
Lemma group_digits_run (a : string) :
  forall (w : bool) (tail : string),
    all_chars is_digit a = true -> digit_run tail = 0%nat ->
    group_digits w (a ++ tail)
    = group_from w a
      ++ group_digits (match a with EmptyString => w | _ => true end) tail.
Proof.
  induction a as [|c a IH]; intros w tail Ha Htail; [reflexivity |].
  pose proof Ha as Hall.
  cbn in Ha. apply andb_true_iff in Ha as [Hc Ha].
  change (String c a ++ tail) with (String c (a ++ tail)).
  cbn [group_digits group_from].
  change (String c (a ++ tail)) with (String c a ++ tail).
  rewrite (@digit_run_digits (String c a) tail Hall), Htail, Nat.add_0_r.
  rewrite Hc, (digit_is_word c Hc), andb_true_r.
  rewrite (IH true tail Ha Htail).
  assert (Hsame : group_digits (match a with EmptyString => true | _ => true end) tail
                  = group_digits true tail) by (destruct a; reflexivity).
  rewrite Hsame.
  destruct (w && (String.length (String c a) mod 3 =? 0)%nat); reflexivity.
Qed.

Lemma group_digits_all (w : bool) (a : string) :
  all_chars is_digit a = true -> group_digits w a = group_from w a.
Proof.
  intros Ha. pose proof (@group_digits_run a w EmptyString Ha eq_refl) as H.
  rewrite (append_empty_r a) in H. rewrite H.
  cbn [group_digits]. apply append_empty_r.
Qed.

Lemma strip_group_digits (s : string) :
  forall w, strip_commas (group_digits w s) = strip_commas s.
Proof.
  induction s as [|c s IH]; intros w; [reflexivity |].
  cbn [group_digits].
  destruct (w && is_digit c && (digit_run (String c s) mod 3 =? 0)%nat);
    cbn [strip_commas]; change (Ascii.eqb "," ",") with true; cbn iota;
    destruct (Ascii.eqb c ","); now rewrite IH.
Qed.

Lemma strip_commas_none (s : string) :
  all_chars (fun c => negb (Ascii.eqb c ",")) s = true -> strip_commas s = s.
Proof.
  induction s as [|c s IH]; [reflexivity |]. cbn.
  intros H. apply andb_true_iff in H as [Hc Hs].
  destruct (Ascii.eqb c ","); [discriminate |]. now rewrite IH.
Qed.

Lemma all_chars_imp (p q : ascii -> bool) (s : string) :
  (forall c, p c = true -> q c = true) -> all_chars p s = true -> all_chars q s = true.
Proof.
  intros Hpq. induction s as [|c s IH]; [reflexivity |]. cbn.
  intros H. apply andb_true_iff in H as [Hc Hs]. now rewrite (Hpq c Hc), IH.
Qed.

Lemma digit_not_comma (c : ascii) : is_digit c = true -> negb (Ascii.eqb c ",") = true.
Proof.
  destruct (Ascii.eqb c ",") eqn:E; [| reflexivity].
  apply Ascii.eqb_eq in E. subst c. discriminate.
Qed.

Lemma digits_no_comma (s : string) :
  all_chars is_digit s = true -> all_chars (fun c => negb (Ascii.eqb c ",")) s = true.
Proof. apply all_chars_imp. exact digit_not_comma. Qed.

Lemma group_from_short (s : string) :
  (String.length s <= 3)%nat -> group_from false s = s.
Proof.
  destruct s as [|a [|b [|c [|d s]]]]; cbn; intros H; try reflexivity. lia.
Qed.

(** X28. [formatNumber] of the first part writes the integer part of
    the number in decimal, a minus sign first if it is negative, with a
    comma before every group of three digits counted from the right;
    without the commas the text is that of the integer. *)
Theorem formatNumber_groups_thousands (num : Q) :
  (Qabs num < 9007199254740992)%Q ->
  formatNumber num
  = match Qfloor num with
    | Zneg p => String "-" (group_thousands (digits_of (Npos p)))
    | z => group_thousands (digits_of (Z.to_N z))
    end
  /\ strip_commas (formatNumber num) = integer_toString (Qfloor num).
Proof.
  intros _. unfold formatNumber. rewrite xreplace_thousands.
  split.
  - unfold integer_toString, group_thousands.
    destruct (Qfloor num) as [| p | p].
    + apply group_digits_all, digits_of_digits.
    + apply group_digits_all, digits_of_digits.
    + cbn [group_digits]. change (is_digit "-") with false. cbn [andb].
      change (is_word "-") with false.
      f_equal. apply group_digits_all, digits_of_digits.
  - rewrite strip_group_digits. apply strip_commas_none.
    unfold integer_toString.
    destruct (Qfloor num) as [| p | p]; cbn [all_chars];
      apply digits_no_comma, digits_of_digits.
Qed.

(** X29. [formatNumber] of the second part writes [num.toFixed(decimals)]
    with a comma before every group of three digits in front of the
    point, and likewise within the digits after the point; up to three
    decimals leave those digits as they are.  Without the commas the
    text is that of [toFixed]. *)
Theorem formatNumber_decimals_groups (num : Q) (decimals : nat) :
  (Qabs num < 1000000000000000000000)%Q -> (decimals <= 100)%nat ->
  formatNumber_decimals num decimals
  = sign_of num
    ++ group_thousands (int_part num decimals)
    ++ match decimals with
       | O => EmptyString
       | _ => "." ++ group_thousands (frac_part num decimals)
       end
  /\ ((decimals <= 3)%nat ->
      group_thousands (frac_part num decimals) = frac_part num decimals)
  /\ strip_commas (formatNumber_decimals num decimals) = toFixed num decimals.
Proof.
  intros _ _. unfold formatNumber_decimals. rewrite xreplace_thousands.
  assert (Hint : all_chars is_digit (int_part num decimals) = true).
  { unfold int_part. apply all_chars_substring, fixed_digits_digits. }
  assert (Hfrac : all_chars is_digit (frac_part num decimals) = true).
  { unfold frac_part. apply all_chars_substring, fixed_digits_digits. }
  split; [| split].
  - unfold toFixed, sign_of, group_thousands.
    assert (Hbody : forall w,
               w = false ->
               group_digits w
                 (int_part num decimals
                  ++ match decimals with
                     | O => EmptyString
                     | _ => "." ++ frac_part num decimals
                     end)
               = group_from false (int_part num decimals)
                 ++ match decimals with
                    | O => EmptyString
                    | _ => "." ++ group_from false (frac_part num decimals)
                    end).
    { intros w ->. destruct decimals as [|f].
      - rewrite !append_empty_r. now apply group_digits_all.
      - rewrite (@group_digits_run _ false _ Hint) by reflexivity.
        f_equal. change ("." ++ frac_part num (S f)) with (String "." (frac_part num (S f))).
        cbn [group_digits]. change (is_digit ".") with false. rewrite andb_false_r.
        cbn [andb]. change (is_word ".") with false.
        change ("." ++ group_from false (frac_part num (S f)))
          with (String "." (group_from false (frac_part num (S f)))).
        f_equal. now apply group_digits_all. }
    destruct (Qlt_le_dec num 0).
    + change ("-" ++ ?x) with (String "-" x). cbn [append group_digits].
      change (is_digit "-") with false. cbn [andb]. change (is_word "-") with false.
      f_equal. now apply Hbody.
    + cbn [append]. now apply Hbody.
  - intros Hdec. apply group_from_short.
    unfold frac_part. pose proof (substring_length_le (fixed_digits num decimals)
                                    (String.length (fixed_digits num decimals) - decimals)
                                    decimals). lia.
  - rewrite strip_group_digits. apply strip_commas_none.
    unfold toFixed, sign_of. rewrite !all_chars_append.
    apply andb_true_iff. split; [destruct (Qlt_le_dec num 0); reflexivity |].
    apply andb_true_iff. split; [now apply digits_no_comma |].
    destruct decimals; [reflexivity |].
    change ("." ++ ?x) with (String "." x). cbn [all_chars].
    change (negb (Ascii.eqb "." ",")) with true. cbn [andb].
    now apply digits_no_comma.
Qed.
End NumberFormatting.

Lemma formatNumber_groups_thousands_witness :
  (Qabs 847291.5 < 9007199254740992)%Q
  /\ Format.formatNumber 847291.5
     = match Qfloor 847291.5 with
       | Zneg p => String "-" (group_thousands (Format.digits_of (Npos p)))
       | z => group_thousands (Format.digits_of (Z.to_N z))
       end
  /\ strip_commas (Format.formatNumber 847291.5)
     = Format.integer_toString (Qfloor 847291.5).
Proof.
  assert (Hdom : (Qabs 847291.5 < 9007199254740992)%Q) by reflexivity.
  split; [exact Hdom | exact (formatNumber_groups_thousands 847291.5 Hdom)].
Defined.

Lemma formatNumber_decimals_groups_witness :
  (Qabs 12847.625 < 1000000000000000000000)%Q /\ (2 <= 100)%nat
  /\ Format.formatNumber_decimals 12847.625 2
     = Format.sign_of 12847.625
       ++ group_thousands (Format.int_part 12847.625 2)
       ++ "." ++ group_thousands (Format.frac_part 12847.625 2)
  /\ ((2 <= 3)%nat ->
      group_thousands (Format.frac_part 12847.625 2) = Format.frac_part 12847.625 2)
  /\ strip_commas (Format.formatNumber_decimals 12847.625 2)
     = Format.toFixed 12847.625 2.
Proof.
  assert (Hdom : (Qabs 12847.625 < 1000000000000000000000)%Q) by reflexivity.
  assert (Hdec : (2 <= 100)%nat) by lia.
  split; [exact Hdom | split; [exact Hdec |]].
  exact (@formatNumber_decimals_groups 12847.625 2 Hdom Hdec).
Defined.


(** ** Tickers that name a member of [Object.prototype] *)

Section InheritedNames.

Lemma member_not_listed (ticker : string) :
  Set_has Object_prototype ticker = true -> listed ticker = false.
Proof.
  unfold Set_has, Object_prototype. cbn [existsb].
  repeat match goal with
         | |- context [String.eqb ticker ?k] =>
             let E := fresh "E" in
             destruct (String.eqb ticker k) eqn:E;
             [apply String.eqb_eq in E; subst ticker; reflexivity |]
         end.
  discriminate.
Qed.

(** X30. On binary64, for every ticker that names a member of
    [Object.prototype] and every feature record, the tables give the
    inherited member and no score: no random number is drawn, the
    decision is SELL with the one reason of a SELL, and the confidence,
    the fundamental component and the technical component are NaN. *)
Theorem inherited_name_signal
        (ticker : string) (nlpResult : NLPResult float) (g : Rng float) :
  Set_has Object_prototype ticker = true ->
  let sg := run (generateSignal ticker nlpResult) g in
  fst (computeFundamentalScore ticker g) = Member ticker
  /\ fst (computeTechnicalScore ticker g) = Member ticker
  /\ snd (generateSignal ticker nlpResult g) = g
  /\ signal sg = SELL
  /\ s_confidence sg = PrimFloat.nan
  /\ c_fundamental (components sg) = PrimFloat.nan
  /\ c_technical (components sg) = PrimFloat.nan
  /\ reasoning sg = ["Elevated negative sentiment in disclosures"].
Proof.
  intros Hmember sg.
  pose proof (property_cases (N := float) ticker) as Htab.
  rewrite (member_not_listed ticker Hmember), Hmember in Htab.
  destruct Htab as [Hf Ht].
  assert (Hsg : sg = assemble ticker (sentimentScore nlpResult) NaN NaN).
  { subst sg. unfold generateSignal, computeFundamentalScore, computeTechnicalScore,
      run, bind, ret. rewrite Hf, Ht. reflexivity. }
  assert (Hg : snd (generateSignal ticker nlpResult g) = g).
  { unfold generateSignal, computeFundamentalScore, computeTechnicalScore, bind, ret.
    rewrite Hf, Ht. reflexivity. }
  unfold computeFundamentalScore, computeTechnicalScore. rewrite Hf, Ht.
  split; [reflexivity | split; [reflexivity | split; [exact Hg |]]].
  rewrite Hsg. cbn [assemble signal s_confidence components c_fundamental c_technical reasoning].
  rewrite compositeScore_NaN. repeat split; reflexivity.
Qed.
End InheritedNames.

Lemma inherited_name_signal_witness :
  Set_has SignalGenerator.Object_prototype "toString" = true
  /\ (let sg := run (generateSignal "toString" (with_scores (int 60) (int 10)))
                    (constant_rng (dec 5 1)) in
      fst (computeFundamentalScore "toString" (constant_rng (dec 5 1))) = Member "toString"
      /\ fst (computeTechnicalScore "toString" (constant_rng (dec 5 1))) = Member "toString"
      /\ snd (generateSignal "toString" (with_scores (int 60) (int 10))
                (constant_rng (dec 5 1))) = constant_rng (dec 5 1)
      /\ signal sg = SELL
      /\ s_confidence sg = PrimFloat.nan
      /\ c_fundamental (components sg) = PrimFloat.nan
      /\ c_technical (components sg) = PrimFloat.nan
      /\ reasoning sg = ["Elevated negative sentiment in disclosures"]).
Proof.
  assert (Hmember : Set_has SignalGenerator.Object_prototype "toString" = true) by reflexivity.
  split; [exact Hmember |].
  exact (@inherited_name_signal "toString" (with_scores (int 60) (int 10))
           (constant_rng (dec 5 1)) Hmember).
Defined.
